(** * RAK product recommender: constraint evaluator, corpus builder, ranking

    A shallow embedding of [recommender_system/data_loader.py],
    [recommender_system/hard_matcher.py], [recommender_system/soft_matcher.py],
    [recommender_system/recommender.py], the handler of [api_main.py] and the
    tables of [recommender_system/config.py].

    Conventions of the embedding.
    - A Python [str] is the [string] of its UTF-8 encoding. Equality,
      concatenation, [in], [split(',')] and the order of [sorted] are the
      same on the encoding as on the characters. Whitespace ([str.strip],
      the class [\s]) is the set of characters Python takes for it, given by
      their encodings. Case mapping and the class [\w] outside ASCII belong
      to the character database of the interpreter: they are the fields of
      the class [Unicode], with the facts about them that the proofs use.
    - A [dict] is a [gmap] when it is only looked up, and an association
      list when its iteration order is observed.
    - The iteration order of a Python [set] of strings depends on the
      per-process string hash; it is a parameter [set_iter] of the model.
    - A [float] is a rational; float arithmetic, rounding and formatting are
      parameters, the comparison of two numbers is the exact one.
    - A pandas cell is a [pyval]: NaN, an integer or a string. *)

From stdpp Require Import base strings list gmap pretty sorting.
From Stdlib Require Import Ascii ZArith NArith QArith Permutation Sorted Lia.

Local Open Scope Z_scope.

(** ** Python strings *)

Module PyStr.

(** *** Bytes *)

Definition is_upper (c : ascii) : bool :=
  let n := nat_of_ascii c in (65 <=? n)%nat && (n <=? 90)%nat.

Definition is_lower (c : ascii) : bool :=
  let n := nat_of_ascii c in (97 <=? n)%nat && (n <=? 122)%nat.

Definition is_digit (c : ascii) : bool :=
  let n := nat_of_ascii c in (48 <=? n)%nat && (n <=? 57)%nat.

(** A byte that encodes an ASCII character by itself. *)
Definition is_ascii (c : ascii) : bool := (nat_of_ascii c <? 128)%nat.

(** A continuation byte [10xxxxxx] of a character of several bytes. *)
Definition is_cont (c : ascii) : bool :=
  let n := nat_of_ascii c in (128 <=? n)%nat && (n <? 192)%nat.

Definition lower_char (c : ascii) : ascii :=
  if is_upper c then ascii_of_nat (nat_of_ascii c + 32) else c.

Definition upper_char (c : ascii) : ascii :=
  if is_lower c then ascii_of_nat (nat_of_ascii c - 32) else c.

Fixpoint map_chars (f : ascii -> ascii) (s : string) : string :=
  match s with
  | EmptyString => EmptyString
  | String c t => String (f c) (map_chars f t)
  end.

(** Every byte of the string is in the class. *)
Fixpoint all_bytes (class : ascii -> bool) (s : string) : bool :=
  match s with
  | EmptyString => true
  | String c t => class c && all_bytes class t
  end.

Definition ascii_only (s : string) : bool := all_bytes is_ascii s.

(** [s.lower()], [s.upper()] and [s.capitalize()] on an ASCII string *)
Definition ascii_lower (s : string) : string := map_chars lower_char s.
Definition ascii_upper (s : string) : string := map_chars upper_char s.
Definition ascii_capitalize (s : string) : string :=
  match s with
  | EmptyString => EmptyString
  | String c t => String (upper_char c) (ascii_lower t)
  end.

(** Truth value of a string: [bool(s)] *)
Definition truthy (s : string) : bool :=
  match s with EmptyString => false | _ => true end.

Fixpoint starts_with (p s : string) : bool :=
  match p with
  | EmptyString => true
  | String a p' =>
      match s with
      | EmptyString => false
      | String b s' => if Ascii.eqb a b then starts_with p' s' else false
      end
  end.

(** [kw in text] for two strings *)
Fixpoint contains (kw text : string) : bool :=
  starts_with kw text ||
  match text with
  | EmptyString => false
  | String _ t => contains kw t
  end.

(** [sep.join(l)] *)
Fixpoint join (sep : string) (l : list string) : string :=
  match l with
  | [] => ""
  | [x] => x
  | x :: rest => x +:+ sep +:+ join sep rest
  end.

(** [s.split(',')]: [cur] is the field being read, reversed. *)
Fixpoint split_comma_from (cur : string) (s : string) : list string :=
  match s with
  | EmptyString => [String.rev cur]
  | String c t =>
      if Ascii.eqb c ","
      then String.rev cur :: split_comma_from EmptyString t
      else split_comma_from (String c cur) t
  end.

Definition split_comma (s : string) : list string :=
  split_comma_from EmptyString s.

(** *** Characters *)

(** The UTF-8 encoding of a code point. *)
Definition utf8 (cp : N) : string :=
  if (cp <? 128)%N then String (ascii_of_N cp) ""
  else if (cp <? 2048)%N then
    String (ascii_of_N (192 + cp / 64))
      (String (ascii_of_N (128 + cp mod 64)) "")
  else if (cp <? 65536)%N then
    String (ascii_of_N (224 + cp / 4096))
      (String (ascii_of_N (128 + (cp / 64) mod 64))
         (String (ascii_of_N (128 + cp mod 64)) ""))
  else
    String (ascii_of_N (240 + cp / 262144))
      (String (ascii_of_N (128 + (cp / 4096) mod 64))
         (String (ascii_of_N (128 + (cp / 64) mod 64))
            (String (ascii_of_N (128 + cp mod 64)) ""))).

Definition starts_cont (g : string) : bool :=
  match g with String a _ => is_cont a | EmptyString => false end.

(** The characters of a string, each as its encoding, read from the right:
    a byte outside ASCII that stands before continuation bytes is the
    first byte of their character, any other byte is a character. *)
Fixpoint chars (s : string) : list string :=
  match s with
  | EmptyString => []
  | String a t =>
      match chars t with
      | g :: l =>
          if starts_cont g && negb (is_ascii a) then String a g :: l
          else String a "" :: g :: l
      | [] => [String a ""]
      end
  end.

(** The string of a list of characters. *)
Definition unchars (l : list string) : string := foldr String.append "" l.

(** *** Whitespace *)

(** The characters [str.isspace], [str.strip] and the class [\s] take for
    whitespace: TAB, LF, VT, FF, CR, the separators U+001C to U+001F, the
    space, NEL, the no-break space, and the spaces of the general
    punctuation and CJK blocks. *)
Definition whitespace : list string :=
  map utf8
    [9; 10; 11; 12; 13; 28; 29; 30; 31; 32; 133; 160; 5760;
     8192; 8193; 8194; 8195; 8196; 8197; 8198; 8199; 8200; 8201; 8202;
     8232; 8233; 8239; 8287; 12288]%N.

Definition is_space (c : string) : bool := existsb (String.eqb c) whitespace.

Fixpoint lstrip (l : list string) : list string :=
  match l with
  | [] => []
  | c :: t => if is_space c then lstrip t else l
  end.

Fixpoint all_space (l : list string) : bool :=
  match l with
  | [] => true
  | c :: t => is_space c && all_space t
  end.

Fixpoint rstrip (l : list string) : list string :=
  match l with
  | [] => []
  | c :: t => if all_space l then [] else c :: rstrip t
  end.

(** [s.strip()] *)
Definition strip (s : string) : string := unchars (rstrip (lstrip (chars s))).

(** [re.sub(r'\s+', ' ', s)]: every maximal run of whitespace becomes one
    space; [in_run] tells that the previous character was whitespace. *)
Fixpoint collapse_ws_from (in_run : bool) (l : list string) : list string :=
  match l with
  | [] => []
  | c :: t =>
      if is_space c
      then (if in_run then collapse_ws_from true t
            else " " :: collapse_ws_from true t)
      else c :: collapse_ws_from false t
  end.

Definition collapse_ws (s : string) : string :=
  unchars (collapse_ws_from false (chars s)).

(** Whitespace occurs only as single spaces; [prev_space] tells that the
    character before the list is whitespace. *)
Fixpoint single_spaced (prev_space : bool) (l : list string) : bool :=
  match l with
  | [] => true
  | c :: t =>
      if is_space c
      then negb prev_space && String.eqb c " " && single_spaced true t
      else single_spaced false t
  end.

(** A list of characters that [chars] can yield: every element is one
    byte, or a byte outside ASCII with its continuation bytes, and an
    element that starts with a continuation byte follows an ASCII
    character only. *)
Definition char_ok (g : string) : bool :=
  match g with
  | EmptyString => false
  | String a rest =>
      match rest with
      | EmptyString => true
      | _ => negb (is_ascii a) && all_bytes is_cont rest
      end
  end.

Definition single_ascii (g : string) : bool :=
  match g with String a EmptyString => is_ascii a | _ => false end.

Fixpoint segmented (l : list string) : bool :=
  match l with
  | [] => true
  | g :: l' =>
      char_ok g && segmented l'
      && match l' with
         | h :: _ => negb (starts_cont h) || single_ascii g
         | [] => true
         end
  end.

(** *** The character database

    What the interpreter takes from the Unicode character database:
    [str.lower], [str.upper], [str.capitalize], and [str.isalnum] of one
    character, which with the underscore makes the class [\w]. On ASCII
    these are the functions above. Lower-casing gives the empty string for
    the empty string only, changes nothing when applied again, and maps a
    whitespace character to itself and any other character to characters
    that are not whitespace, so that a string without surrounding
    whitespace, or without whitespace other than single spaces, stays
    so. *)
Class Unicode := {
  lower : string -> string;
  upper : string -> string;
  capitalize : string -> string;
  isalnum : string -> bool;
  lower_ascii : forall s, ascii_only s = true -> lower s = ascii_lower s;
  upper_ascii : forall s, ascii_only s = true -> upper s = ascii_upper s;
  capitalize_ascii :
    forall s, ascii_only s = true -> capitalize s = ascii_capitalize s;
  isalnum_ascii :
    forall a, is_ascii a = true ->
      isalnum (String a "") = is_upper a || is_lower a || is_digit a;
  lower_empty : forall s, lower s = "" -> s = "";
  lower_lower : forall s, lower (lower s) = lower s;
  lower_strip : forall s, strip s = s -> strip (lower s) = lower s;
  lower_collapse :
    forall s, collapse_ws s = s -> collapse_ws (lower s) = lower s
}.

Section Words.
Context {UC : Unicode}.

(** *** The pattern [\b kw \b]

    [re.search(r'\b' + re.escape(kw) + r'\b', text)]: the escaped keyword
    matches itself, character by character; [\b] holds between two
    positions exactly one of which is a word character, a character of the
    class [\w] (the outside of the text is not one). *)

Definition is_word (c : string) : bool := isalnum c || String.eqb c "_".

Definition word_opt (c : option string) : bool :=
  match c with Some a => is_word a | None => false end.

Definition boundary (prev next : option string) : bool :=
  xorb (word_opt prev) (word_opt next).

(** The keyword, then a boundary, read at the current position; [prev] is
    the character before it. *)
Fixpoint match_here (prev : option string) (kw text : list string) : bool :=
  match kw with
  | [] => boundary prev (head text)
  | k :: kw' =>
      match text with
      | [] => false
      | c :: t => if String.eqb k c then match_here (Some c) kw' t else false
      end
  end.

Fixpoint search_from (prev : option string) (kw text : list string) : bool :=
  (boundary prev (head text) && match_here prev kw text) ||
  match text with
  | [] => false
  | c :: t => search_from (Some c) kw t
  end.

Definition re_search_word (kw text : string) : bool :=
  search_from None (chars kw) (chars text).



(** A string that lower-casing, whitespace collapsing and stripping leave
    as it is. *)
Definition is_normalized (s : string) : Prop :=
  lower s = s /\ collapse_ws s = s /\ strip s = s.

End Words.

(** [kw] occurs in [text] *)
Definition substring (kw text : string) : Prop :=
  exists pre post : string, text = pre +:+ kw +:+ post.

#[global] Arguments is_space : simpl never.
#[global] Arguments is_ascii : simpl never.
#[global] Arguments is_cont : simpl never.

End PyStr.

Import PyStr.

(** ** pandas cells *)

Inductive pyval :=
  | PNaN
  | PInt (z : Z)
  | PStr (s : string).

#[global] Instance pyval_eq_dec : EqDecision pyval.
Proof. solve_decision. Defined.

(** [str(v)] *)
Definition py_str (v : pyval) : string :=
  match v with
  | PNaN => "nan"
  | PInt z => pretty z
  | PStr s => s
  end.

(** [pd.notna(v)] *)
Definition notna (v : pyval) : bool :=
  match v with PNaN => false | _ => true end.

(** ** config.py *)

Module config.

Definition WEIGHTS : gmap string Z :=
  list_to_map
    [("frequency_band", 5); ("environment", 3); ("connectivity_option", 2);
     ("power_keyword", 1); ("text_similarity_scale", 10)].

Definition POWER_KEYWORD_MAPPING : gmap string (list string) :=
  list_to_map
    [("DC Power", ["dc power"; "dc supply"]);
     ("AC Power", ["ac power"; "ac supply"]);
     ("Battery Powered", ["battery"; "batteries"; "battery-powered"]);
     ("USB Powered", ["usb power"; "usb powered"]);
     ("Solar Power", ["solar"; "solar power"; "solar-powered"]);
     ("PoE (Power over Ethernet)", ["poe"; "power over ethernet"]);
     ("Other / Not Specified", [])].

(** The keyword of [i2c] written with a superscript two, in UTF-8. *)
Definition i_sup2_c : string :=
  String "i" (String (ascii_of_nat 194) (String (ascii_of_nat 178) "c")).

Definition CONNECTIVITY_JSON_TO_PRODUCT_KEYWORDS : gmap string (list string) :=
  list_to_map
    [("lorawan", ["lorawan"; "lora wan"]);
     ("lora_p2p", ["lora p2p"; "lora point-to-point"]);
     ("lora", ["lora"]);
     ("meshtastic", ["meshtastic"]);
     ("wifi", ["wi-fi"; "wifi"; "wlan"; "wireless lan"]);
     ("ble", ["ble"; "bluetooth low energy"; "bluetooth le"]);
     ("nfc", ["nfc"; "near field communication"]);
     ("uwb", ["uwb"; "ultra-wideband"]);
     ("lte", ["lte"; "4g"]);
     ("5g", ["5g"; "5g nr"]);
     ("lte_m_cat_m1", ["lte-m"; "cat-m1"; "lte cat m1"]);
     ("nb_iot", ["nb-iot"; "narrowband iot"]);
     ("gsm", ["gsm"]);
     ("agw", ["agw"]);
     ("lpwan_other", []);
     ("gps", ["gps"; "global positioning system"]);
     ("gnss", ["gnss"]);
     ("ethernet", ["ethernet"; "rj45"; "lan port"]);
     ("poe", ["poe"; "power over ethernet"]);
     ("usb", ["usb"]);
     ("pcie", ["pcie"; "pci express"]);
     ("twisted_pair", ["twisted pair"]);
     ("coaxial_cable", ["coaxial"]);
     ("i2c", ["i2c"; i_sup2_c]);
     ("spi", ["spi"]);
     ("uart_serial", ["uart"; "serial port"; "rs232"; "rs-232"]);
     ("rs485", ["rs485"; "rs-485"]);
     ("sdi12", ["sdi12"; "sdi-12"]);
     ("can_bus", ["can bus"; "canbus"]);
     ("lin_bus", ["lin bus"]);
     ("mqtt", ["mqtt"]);
     ("adc", ["adc"; "analog-to-digital"; "analog input"]);
     ("digital_io", ["digital i/o"; "digital io"; "gpio"; "digital input";
                     "digital output"])].

End config.

(** [self.weights[k]]; every key the code reads is in the table. *)
Definition weight (k : string) : Z := default 0 (config.WEIGHTS !! k).

#[global] Arguments weight : simpl never.

(** ** Data model *)

(** A row of the products table after [DataLoader.preprocess_data]. *)
Record Product := {
  Product_ID : pyval;
  Product_Name : string;
  Description_And_Application : pyval;
  Notes : pyval;
  Connectivity : pyval;
  Region_Support_List : list string;
  Connectivity_Lower_Text : string;
  Connectivity_List : list string;
  Deployment_Environment_Lower : string;
  embedding : list Q
}.

(** The requirement document; [None] is an absent key. *)
Record Region := { frequencyBand : option string }.
Record Deployment := { environment : option string }.
Record Application := {
  app_type : option string;
  subtypes : option (list string);
  otherSubtype : option string
}.
Record ConnectivityReq := { elaborate : option (list (string * list string)) }.
Record Requirements := {
  region : option Region;
  deployment : option Deployment;
  application : option Application;
  connectivity : option ConnectivityReq;
  power : option (list string);
  additionalDetails : option string
}.

(** ** data_loader.py *)

(** A row of the products table as [pd.read_csv] gives it. *)
Record RawProduct := {
  raw_Product_ID : pyval;
  raw_Product_Name : pyval;
  raw_Description_And_Application : pyval;
  raw_Notes : pyval;
  raw_Connectivity : pyval;
  raw_Deployment_Environment : pyval;
  raw_Region_Support : pyval
}.

(** [.fillna('')] on a text cell *)
Definition fillna_empty (v : pyval) : pyval :=
  match v with PNaN => PStr "" | _ => v end.

Section DataLoader.
Context {UC : Unicode}.

(** [[x.strip().lower() for x in str(v).split(',') if x.strip()]] *)
Definition split_strip_lower (v : pyval) : list string :=
  map (fun x => lower (strip x))
    (filter (fun x => truthy (strip x) = true) (split_comma (py_str v))).

(** [.str.lower()] on a cell of a filled text column. A cell that is not a
    string has no lower-cased string: pandas leaves NaN in its place, or
    raises when the whole column is numeric. *)
Definition str_lower (v : pyval) : option string :=
  match v with PStr s => Some (lower s) | _ => None end.

(** The columns [preprocess_data] fills and adds, on one row; the
    embedding is the one the recommender caches for the row. There is no
    row of strings when [.str.lower()] has none for the connectivity or
    the environment cell. *)
Definition preprocess_row (r : RawProduct) (emb : list Q) : option Product :=
  let conn := fillna_empty (raw_Connectivity r) in
  conn_lower ← str_lower conn;
  env_lower ← str_lower (fillna_empty (raw_Deployment_Environment r));
  Some
    {| Product_ID := PStr (py_str (raw_Product_ID r));
       Product_Name := py_str (fillna_empty (raw_Product_Name r));
       Description_And_Application :=
         fillna_empty (raw_Description_And_Application r);
       Notes := fillna_empty (raw_Notes r);
       Connectivity := conn;
       Region_Support_List :=
         split_strip_lower (fillna_empty (raw_Region_Support r));
       Connectivity_Lower_Text := conn_lower;
       Connectivity_List := split_strip_lower conn;
       Deployment_Environment_Lower := env_lower;
       embedding := emb |}.

End DataLoader.

(** The four values [check_constraints] returns; also the state its four
    blocks update in turn. *)
Record HCResult := {
  overall_pass : bool;
  score : Z;
  constraints_passed_details : gmap string (option bool);
  explanation : list string
}.

(** ** hard_matcher.py *)

(** [sorted(l)] on strings: insertion into a list in ascending order. *)
Fixpoint insert_str (x : string) (l : list string) : list string :=
  match l with
  | [] => [x]
  | y :: l' => if String.leb x y then x :: l else y :: insert_str x l'
  end.

Definition sorted_strs (l : list string) : list string :=
  foldr insert_str [] l.

Section HardConstraintMatcher.
Context {UC : Unicode}.

(** [list(set(l))] *)
Variable set_iter : list string -> list string.
(** [str(l)] for a list of strings, as an f-string prints it *)
Variable repr_list : list string -> string.

Definition set_detail (k : string) (v : option bool) (st : HCResult) : HCResult :=
  {| overall_pass := overall_pass st;
     score := score st;
     constraints_passed_details := <[k := v]> (constraints_passed_details st);
     explanation := explanation st |}.

Definition add_score (w : Z) (st : HCResult) : HCResult :=
  {| overall_pass := overall_pass st;
     score := score st + w;
     constraints_passed_details := constraints_passed_details st;
     explanation := explanation st |}.

Definition fail_overall (st : HCResult) : HCResult :=
  {| overall_pass := false;
     score := score st;
     constraints_passed_details := constraints_passed_details st;
     explanation := explanation st |}.

Definition with_score (sc : Z) (st : HCResult) : HCResult :=
  {| overall_pass := overall_pass st;
     score := sc;
     constraints_passed_details := constraints_passed_details st;
     explanation := explanation st |}.

Definition explain (msg : string) (st : HCResult) : HCResult :=
  {| overall_pass := overall_pass st;
     score := score st;
     constraints_passed_details := constraints_passed_details st;
     explanation := explanation st ++ [msg] |}.

(** *** 1. Frequency band *)

Definition req_freq_band (req : Requirements) : string :=
  lower (default "" (region req ≫= frequencyBand)).

Definition check_frequency_band (p : Product) (req : Requirements)
    (st : HCResult) : HCResult :=
  let band := req_freq_band req in
  let product_regions := Region_Support_List p in
  if truthy band then
    if bool_decide (band ∈ product_regions) then
      explain ("Matched frequency band: " +:+ upper band)
        (add_score (weight "frequency_band")
           (set_detail "frequency_band" (Some true) st))
    else
      explain ("FAILED frequency band: Product supports "
               +:+ repr_list product_regions +:+ ", required " +:+ upper band)
        (fail_overall (set_detail "frequency_band" (Some false) st))
  else
    explain "Frequency band not specified by user."
      (set_detail "frequency_band" None st).

(** *** 2. Deployment environment *)

Definition req_env (req : Requirements) : string :=
  lower (default "" (deployment req ≫= environment)).

Definition matched_env (product_env renv : string) : bool :=
  if bool_decide (product_env = renv) then true
  else if bool_decide (renv = "both")
          && bool_decide (product_env ∈ ["indoor"; "outdoor"; "both"; ""])
  then true
  else if bool_decide (product_env = "both")
          && bool_decide (renv ∈ ["indoor"; "outdoor"])
  then true
  else false.

Definition check_environment (p : Product) (req : Requirements)
    (st : HCResult) : HCResult :=
  let renv := req_env req in
  let product_env := Deployment_Environment_Lower p in
  if truthy renv then
    if matched_env product_env renv then
      explain ("Matched environment: User '" +:+ capitalize renv
               +:+ "', Product '" +:+ capitalize product_env +:+ "'")
        (add_score (weight "environment")
           (set_detail "environment" (Some true) st))
    else
      explain ("FAILED environment: Product is '" +:+ capitalize product_env
               +:+ "', required '" +:+ capitalize renv +:+ "'")
        (fail_overall (set_detail "environment" (Some false) st))
  else
    explain "Deployment environment not specified by user."
      (set_detail "environment" None st).

(** *** 3. Connectivity *)

(** The ids of every category, lower-cased, in the order the loop over
    [elaborate_conn.items()] extends the list. *)
Definition flattened_conn_ids (req : Requirements) : list string :=
  let elaborate_conn := default [] (connectivity req ≫= elaborate) in
  flat_map (fun entry => map lower (snd entry)) elaborate_conn.

Definition user_connectivity_reqs_ids (req : Requirements) : list string :=
  set_iter (flattened_conn_ids req).

Definition keywords_to_check (req_conn_id : string) : list string :=
  default [req_conn_id]
    (config.CONNECTIVITY_JSON_TO_PRODUCT_KEYWORDS !! req_conn_id).

(** The test of one keyword against a product. *)
Definition conn_keyword_hit (p : Product) (kw : string) : bool :=
  bool_decide (kw ∈ Connectivity_List p)
  || (truthy (Connectivity_Lower_Text p) && contains kw (Connectivity_Lower_Text p)).

(** The inner loop: it stops at the first keyword that hits. *)
Definition conn_id_matched (p : Product) (req_conn_id : string) : bool :=
  existsb (conn_keyword_hit p) (keywords_to_check req_conn_id).

(** State of the loop over the requested ids:
    [matched_conn_options_found], [score], [any_user_req_matched]. *)
Definition conn_loop_step (p : Product) (acc : list string * Z * bool)
    (req_conn_id : string) : list string * Z * bool :=
  let '(found, sc, any) := acc in
  if conn_id_matched p req_conn_id
  then (found ++ [upper req_conn_id], sc + weight "connectivity_option", true)
  else acc.

Definition conn_loop (p : Product) (ids : list string) (sc : Z)
    : list string * Z * bool :=
  fold_left (conn_loop_step p) ids ([], sc, false).

Definition check_connectivity (p : Product) (req : Requirements)
    (st : HCResult) : HCResult :=
  let ids := user_connectivity_reqs_ids req in
  match ids with
  | _ :: _ =>
      let '(found, sc, any) := conn_loop p ids (score st) in
      let st := with_score sc st in
      if any then
        explain ("Matched connectivity options: "
                 +:+ join ", " (sorted_strs (set_iter found)))
          (set_detail "connectivity" (Some true) st)
      else
        explain ("FAILED connectivity: No product match for user required options: "
                 +:+ join ", " ids)
          (fail_overall (set_detail "connectivity" (Some false) st))
  | [] =>
      explain "Connectivity not specified by user."
        (set_detail "connectivity" None st)
  end.

(** *** 4. Power *)

Definition req_power_options_labels (req : Requirements) : list string :=
  default [] (power req).

Definition product_text_for_power (p : Product) : string :=
  lower (py_str (Description_And_Application p) +:+ " " +:+ py_str (Notes p)).

Definition power_keywords_for_label (label : string) : list string :=
  default [] (config.POWER_KEYWORD_MAPPING !! label).

(** The inner loop: the first keyword of the label found in the text. *)
Definition first_power_keyword (text label : string) : option string :=
  find (fun kw => re_search_word kw text) (power_keywords_for_label label).

Definition power_loop_step (text : string) (found : list string)
    (label : string) : list string :=
  match first_power_keyword text label with
  | Some kw => found ++ ["'" +:+ kw +:+ "' (for " +:+ label +:+ ")"]
  | None => found
  end.

(** [power_keywords_found_in_product] when the loop over the labels ends *)
Definition power_keywords_found (text : string) (labels : list string)
    : list string :=
  fold_left (power_loop_step text) labels [].

Definition check_power (p : Product) (req : Requirements)
    (st : HCResult) : HCResult :=
  let labels := req_power_options_labels req in
  let text := product_text_for_power p in
  match labels with
  | _ :: _ =>
      let found := power_keywords_found text labels in
      match found with
      | _ :: _ =>
          explain ("Power requirement(s) met: Found "
                   +:+ join ", " (set_iter found))
            (add_score (weight "power_keyword")
               (set_detail "power" (Some true) st))
      | [] =>
          explain ("FAILED power: No product match for user required power options ("
                   +:+ join ", " labels +:+ ") in product description/notes.")
            (fail_overall (set_detail "power" (Some false) st))
      end
  | [] =>
      explain "Power requirements not specified by user."
        (set_detail "power" None st)
  end.

(** *** The outcome of each block

    What a block records for its dimension and what it adds to the score,
    read off the branches above; the equations that relate them to the
    blocks are proved below. *)

Definition freq_outcome (p : Product) (req : Requirements) : option bool :=
  let band := req_freq_band req in
  if truthy band then Some (bool_decide (band ∈ Region_Support_List p)) else None.

Definition env_outcome (p : Product) (req : Requirements) : option bool :=
  let renv := req_env req in
  if truthy renv then Some (matched_env (Deployment_Environment_Lower p) renv)
  else None.

Definition matched_conn_ids (p : Product) (req : Requirements) : list string :=
  filter (fun t => conn_id_matched p t = true) (user_connectivity_reqs_ids req).

Definition conn_outcome (p : Product) (req : Requirements) : option bool :=
  match user_connectivity_reqs_ids req with
  | [] => None
  | ids => Some (existsb (conn_id_matched p) ids)
  end.

Definition label_matched (text label : string) : bool :=
  existsb (fun kw => re_search_word kw text) (power_keywords_for_label label).

Definition power_outcome (p : Product) (req : Requirements) : option bool :=
  match req_power_options_labels req with
  | [] => None
  | labels => Some (existsb (label_matched (product_text_for_power p)) labels)
  end.

(** A requested token matches a product: one of its keywords is an element
    of the parsed list, or occurs in the connectivity text when that text
    is not empty. *)
Definition conn_token_matches (p : Product) (t : string) : Prop :=
  exists kw, kw ∈ keywords_to_check t /\
    (kw ∈ Connectivity_List p \/
     (Connectivity_Lower_Text p <> "" /\ substring kw (Connectivity_Lower_Text p))).


(** The three ways an environment requirement is met. *)
Definition env_compatible (product_env renv : string) : Prop :=
  product_env = renv
  \/ (renv = "both" /\ product_env ∈ ["indoor"; "outdoor"; "both"; ""])
  \/ (product_env = "both" /\ renv ∈ ["indoor"; "outdoor"]).

(** The score of a dimension that adds its weight once when it matches. *)
Definition points (w : Z) (o : option bool) : Z :=
  match o with Some true => w | _ => 0 end.

Definition conn_points (p : Product) (req : Requirements) : Z :=
  weight "connectivity_option" * Z.of_nat (length (matched_conn_ids p req)).

(** The effect of a block with outcome [o], score [w] and message [msg]. *)
Definition record_outcome (key : string) (o : option bool) (w : Z)
    (msg : string) (st : HCResult) : HCResult :=
  {| overall_pass :=
       match o with Some false => false | _ => overall_pass st end;
     score := score st + w;
     constraints_passed_details := <[key := o]> (constraints_passed_details st);
     explanation := explanation st ++ [msg] |}.

Definition initial_result : HCResult :=
  {| overall_pass := true; score := 0;
     constraints_passed_details := ∅; explanation := [] |}.

Definition check_constraints (p : Product) (req : Requirements) : HCResult :=
  check_power p req
    (check_connectivity p req
       (check_environment p req
          (check_frequency_band p req initial_result))).

End HardConstraintMatcher.

(** ** soft_matcher.py *)

Record Feature := {
  Feature_ID : pyval;
  Feature_Name : pyval;
  Feature_Description : pyval
}.

(** A row of the product-feature mapping table. *)
Record ProductFeature := {
  map_Product_ID : pyval;
  map_Feature_ID : pyval
}.

(** The sentence-embedding model: [model_loaded] tells whether [self.model]
    is set, [encode] is [self.model.encode] and [cos_sim] the flattened
    result of [util.pytorch_cos_sim]; [None] is a raised exception. *)
Record SoftMatcher := {
  model_loaded : bool;
  encode : list string -> option (list (list Q));
  cos_sim : list Q -> list (list Q) -> option (list Q)
}.

Section SoftMatcherText.
Context {UC : Unicode}.

(** [" ".join(filter(None, texts))], [re.sub(r'\s+', ' ', .)], [.strip()],
    [.lower()]: the last three lines of both builders. *)
Definition clean_join (texts : list string) : string :=
  lower (strip (collapse_ws (join " " (filter (fun t => truthy t = true) texts)))).

Definition text_or_empty (v : pyval) : string :=
  if notna v then py_str v else "".

(** [features_df['Feature_ID'].astype(str)] written back into the table *)
Definition feature_id_astype_str (f : Feature) : Feature :=
  {| Feature_ID := PStr (py_str (Feature_ID f));
     Feature_Name := Feature_Name f;
     Feature_Description := Feature_Description f |}.

(** [build_product_corpus]: the corpus and the features table as the call
    leaves it (the table is the caller's object and is assigned to in
    place). A table that is [None] is treated like an empty one. *)
Definition build_product_corpus (product_row : option Product)
    (features_df : list Feature) (product_feature_map_df : list ProductFeature)
    : string * list Feature :=
  match product_row with
  | None => ("", features_df)
  | Some row =>
      let texts :=
        [text_or_empty (Description_And_Application row);
         text_or_empty (Notes row);
         text_or_empty (Connectivity row)] in
      let product_id := py_str (Product_ID row) in
      let associated_feature_ids :=
        map map_Feature_ID
          (filter (fun m => map_Product_ID m = PStr product_id)
             product_feature_map_df) in
      match features_df, product_feature_map_df, truthy product_id,
            associated_feature_ids with
      | _ :: _, _ :: _, true, _ :: _ =>
          let features_df' := map feature_id_astype_str features_df in
          let feature_descriptions :=
            map Feature_Description
              (filter (fun f => Feature_ID f ∈ associated_feature_ids)
                 features_df') in
          (clean_join (texts ++ map py_str (filter (fun d => notna d = true)
                                               feature_descriptions)),
           features_df')
      | _, _, _, _ => (clean_join texts, features_df)
      end
  end.

Definition build_requirement_query (req : Requirements) : string :=
  let app_type_str := default "" (application req ≫= app_type) in
  let subs := default [] (application req ≫= subtypes) in
  let other_subtype := default "" (application req ≫= otherSubtype) in
  let query_parts :=
    [app_type_str]
    ++ (match subs with [] => [] | _ => [join " " subs] end)
    ++ (if truthy other_subtype then [other_subtype] else [])
    ++ [default "" (additionalDetails req)] in
  clean_join query_parts.

End SoftMatcherText.

Definition get_embeddings (sm : SoftMatcher) (texts : list string)
    : option (list (list Q)) :=
  if negb (model_loaded sm) then None
  else if forallb (fun t => negb (truthy t)) texts then Some []
  else encode sm texts.

Definition calculate_similarity (sm : SoftMatcher) (query_embedding : list Q)
    (product_embeddings_list : list (list Q)) : list Q :=
  match product_embeddings_list with
  | [] => []
  | _ => default [] (cos_sim sm query_embedding product_embeddings_list)
  end.

(** ** recommender.py *)

(** A Python number: the rule score is an [int], similarities are floats. *)
Inductive pynum :=
  | NInt (z : Z)
  | NFloat (q : Q).

Definition num_val (n : pynum) : Q :=
  match n with
  | NInt z => inject_Z z
  | NFloat q => q
  end.

(** An entry of [recommendation_data]. *)
Record RecData := {
  product_id : pyval;
  product_name : string;
  hard_constraint_score : Z;
  hard_constraint_details : gmap string (option bool);
  similarity_score : pynum;
  final_score : pynum;
  rec_explanation : list string
}.

(** A record of the returned list. *)
Record Recommendation := {
  out_Product_ID : pyval;
  out_Product_Name : string;
  Hard_Constraints_Passed_Details : gmap string (option bool);
  Text_Similarity : pynum;
  Final_Score : pynum;
  Explanation_Details : list string
}.

(** What a call does: it returns or raises. *)
Inductive outcome (A : Type) :=
  | Returned (a : A)
  | Raised (exn : string).
Arguments Returned {A} a.
Arguments Raised {A} exn.

(** The calls [recommend] makes on the soft matcher, in order. *)
Inductive Event :=
  | EvBuildQuery
  | EvGetEmbeddings (texts : list string)
  | EvCalculateSimilarity (n : nat).

(** [sorted(l, key=..., reverse=True)]: descending, and records with equal
    keys keep their order. Insertion from the right puts a record before
    the first one whose key is not greater than its own. *)
Section Sorting.
Context {A : Type} (key : A -> Q).

Fixpoint insert_desc (x : A) (l : list A) : list A :=
  match l with
  | [] => [x]
  | y :: l' =>
      if Qle_bool (key y) (key x) then x :: l else y :: insert_desc x l'
  end.

Definition sorted_desc (l : list A) : list A := foldr insert_desc [] l.
End Sorting.

(** Two keys tie when they are equal as numbers. *)
#[global] Instance Qeq_decision (x y : Q) : Decision (x == y)%Q := Qeq_dec x y.

(** Descending order of the keys along a list. *)
Definition descending {A : Type} (key : A -> Q) (l : list A) : Prop :=
  StronglySorted (fun a b => (key b <= key a)%Q) l.

(** [l[:n]] *)
Definition slice_to {A : Type} (n : Z) (l : list A) : list A :=
  if (0 <=? n)%Z then take (Z.to_nat n) l
  else take (length l - Z.to_nat (- n)) l.

Definition format_output (d : RecData) : Recommendation :=
  {| out_Product_ID := product_id d;
     out_Product_Name := product_name d;
     Hard_Constraints_Passed_Details := hard_constraint_details d;
     Text_Similarity := similarity_score d;
     Final_Score := final_score d;
     Explanation_Details := rec_explanation d |}.

(** The default of the parameter [top_n] in the signature of [recommend]. *)
Definition recommend_default_top_n : Z := 5.

Section ProductRecommender.
Context {UC : Unicode}.

Variable set_iter : list string -> list string.
Variable repr_list : list string -> string.
(** Float product and sum, [round(x, ndigits)] and the format [:.2f]. *)
Variable float_mul : Q -> Q -> Q.
Variable float_add : Q -> Q -> Q.
Variable float_round : Q -> Z -> Q.
Variable format_2f : Q -> string.

Variable soft_matcher : SoftMatcher.

(** The loop of the hard-constraint filter: the rows that pass, each with
    the result of its evaluation, in catalog order. *)
Definition hard_constraint_filter (products_df : list Product)
    (req : Requirements) : list (Product * HCResult) :=
  filter (fun c => overall_pass (snd c) = true)
    (map (fun p => (p, check_constraints set_iter repr_list p req)) products_df).

(** The lines added to the explanation when the similarity is skipped. *)
Definition degraded_note : string :=
  "Text Similarity: 0.00 (Query empty or model issue)".
Definition embedding_failed_note : string :=
  "Text Similarity: 0.00 (Query embedding failed)".

(** Both branches that skip the similarity: [note] is the line added to
    the explanation. *)
Definition without_similarity (note : string) (c : Product * HCResult) : RecData :=
  let '(row, hc) := c in
  {| product_id := Product_ID row;
     product_name := Product_Name row;
     hard_constraint_score := score hc;
     hard_constraint_details := constraints_passed_details hc;
     similarity_score := NFloat 0;
     final_score := NInt (score hc);
     rec_explanation := explanation hc ++ [note] |}.

Definition with_similarity (c : Product * HCResult) (similarity : Q) : RecData :=
  let '(row, hc) := c in
  let scaled_similarity_score :=
    float_mul similarity (inject_Z (weight "text_similarity_scale")) in
  let final := float_add (inject_Z (score hc)) scaled_similarity_score in
  {| product_id := Product_ID row;
     product_name := Product_Name row;
     hard_constraint_score := score hc;
     hard_constraint_details := constraints_passed_details hc;
     similarity_score := NFloat (float_round similarity 4);
     final_score := NFloat (float_round final 2);
     rec_explanation :=
       explanation hc
       ++ ["Text Similarity Score: " +:+ format_2f similarity
           +:+ " (scaled: " +:+ format_2f scaled_similarity_score +:+ ")"] |}.

(** Positions of the candidates whose cached embedding is not empty. *)
Definition valid_embedding_indices (cands : list (Product * HCResult)) : list nat :=
  map fst (filter (fun ic => embedding (fst (snd ic)) ≠ [])
             (imap (fun i c => (i, c)) cands)).

(** The loop that writes the similarities into the column
    [similarity_score_temp]; [valid_embedding_indices[i]] raises when the
    similarity engine returned more scores than there are positions. *)
Fixpoint assign_similarities (valid : list nat) (sims : list Q) (i : nat)
    (column : list Q) : outcome (list Q) :=
  match sims with
  | [] => Returned column
  | sim_score :: rest =>
      match valid !! i with
      | None => Raised "IndexError"
      | Some original_candidate_idx =>
          assign_similarities valid rest (S i)
            (<[original_candidate_idx := sim_score]> column)
      end
  end.

(** The similarity engine returns at most one score per vector it is
    given (one each, or none when it fails). *)
Definition cos_sim_bounded : Prop :=
  forall q embs sims, cos_sim soft_matcher q embs = Some sims ->
    (length sims <= length embs)%nat.

(** [recommendation_data] and the calls made to compute it, once some
    candidate has passed the filter. *)
Definition score_candidates (cands : list (Product * HCResult))
    (req : Requirements) : outcome (list RecData) * list Event :=
  let requirement_query_str := build_requirement_query req in
  if negb (truthy (strip requirement_query_str)) || negb (model_loaded soft_matcher)
  then
    (Returned
       (map (without_similarity degraded_note) cands),
     [EvBuildQuery])
  else
    match get_embeddings soft_matcher [requirement_query_str] with
    | None | Some [] =>
        (Returned
           (map (without_similarity embedding_failed_note) cands),
         [EvBuildQuery; EvGetEmbeddings [requirement_query_str]])
    | Some (query_embedding :: _) =>
        let product_embeddings_for_similarity :=
          filter (fun emb => emb ≠ []) (map (fun c => embedding (fst c)) cands) in
        let valid := valid_embedding_indices cands in
        let '(cosine_similarities, calls) :=
          match product_embeddings_for_similarity with
          | [] => ([], [])
          | _ =>
              (calculate_similarity soft_matcher query_embedding
                 product_embeddings_for_similarity,
               [EvCalculateSimilarity (length product_embeddings_for_similarity)])
          end in
        let trace :=
          [EvBuildQuery; EvGetEmbeddings [requirement_query_str]] ++ calls in
        match assign_similarities valid cosine_similarities 0
                (replicate (length cands) (0 : Q)) with
        | Raised e => (Raised e, trace)
        | Returned column =>
            (Returned (zip_with with_similarity cands column), trace)
        end
    end.

(** The sort key of [recommend]. *)
Definition final_score_key (d : RecData) : Q := num_val (final_score d).

(** [recommend] with the calls it makes on the soft matcher. *)
Definition recommend_run (products_df : list Product) (req : Requirements)
    (top_n : Z) : outcome (list Recommendation) * list Event :=
  match products_df with
  | [] => (Returned [], [])
  | _ =>
      let cands := hard_constraint_filter products_df req in
      match cands with
      | [] => (Returned [], [])
      | _ =>
          match score_candidates cands req with
          | (Raised e, trace) => (Raised e, trace)
          | (Returned recommendation_data, trace) =>
              let ranked_products :=
                sorted_desc final_score_key recommendation_data in
              (Returned (map format_output (slice_to top_n ranked_products)), trace)
          end
      end
  end.

(** [recommend(requirements_json, top_n)]; [None] is a call that leaves
    [top_n] out. *)
Definition recommend (products_df : list Product) (req : Requirements)
    (top_n : option Z) : outcome (list Recommendation) :=
  fst (recommend_run products_df req (default recommend_default_top_n top_n)).

End ProductRecommender.

(** ** The iteration order of a set

    [list(set(l))] lists every element of [l] once; the order is the one
    of the hash table and changes with the hash seed of the process. *)
Record SetOrder := {
  iter_order :> list string -> list string;
  iter_order_NoDup : forall l, NoDup (iter_order l);
  iter_order_elem : forall l x, x ∈ iter_order l <-> x ∈ l
}.

(** Two orders: by first occurrence, and the reverse of it. *)
Definition set_first : SetOrder :=
  {| iter_order := remove_dups;
     iter_order_NoDup := NoDup_remove_dups;
     iter_order_elem := fun l x => elem_of_remove_dups l x |}.

Definition set_last : SetOrder.
Proof.
  refine {| iter_order := fun l => reverse (remove_dups l) |}.
  - intros l. rewrite reverse_Permutation. apply NoDup_remove_dups.
  - intros l x. rewrite elem_of_reverse. apply elem_of_remove_dups.
Defined.

(** [str(l)] for strings that need no escape and hold no quote. *)
Definition repr_simple (l : list string) : string :=
  "[" +:+ join ", " (map (fun s => "'" +:+ s +:+ "'") l) +:+ "]".

(** ** Further definitions *)

Section Further.
Context {UC : Unicode}.

(** The line the connectivity block appends to the explanation, read off
    its three branches. *)
Definition conn_message (set_iter : list string -> list string)
    (p : Product) (req : Requirements) : string :=
  match user_connectivity_reqs_ids set_iter req with
  | [] => "Connectivity not specified by user."
  | ids =>
      if existsb (conn_id_matched p) ids
      then "Matched connectivity options: "
           +:+ join ", " (sorted_strs (set_iter (map upper (matched_conn_ids set_iter p req))))
      else "FAILED connectivity: No product match for user required options: "
           +:+ join ", " ids
  end.

End Further.

(** The positions of the candidates whose embedding is not empty, counted
    from [k]. *)
Definition valid_indices_from (k : nat) (cands : list (Product * HCResult)) : list nat :=
  map fst (filter (fun ic => embedding (fst (snd ic)) ≠ [])
             (imap (fun i c => ((k + i)%nat, c)) cands)).

(** The column [similarity_score_temp] as the loop of [recommend] leaves
    it: each candidate with an embedding takes the next score, the others,
    and those left over when the scores run out, keep 0.0. *)
Fixpoint scatter_similarities (cands : list (Product * HCResult)) (sims : list Q)
    : list Q :=
  match cands with
  | [] => []
  | c :: cs =>
      match embedding (fst c), sims with
      | [], _ => 0%Q :: scatter_similarities cs sims
      | _ :: _, s :: ss => s :: scatter_similarities cs ss
      | _ :: _, [] => 0%Q :: scatter_similarities cs []
      end
  end.

(** The part of a returned record that does not hold explanation text. *)
Definition record_core (r : Recommendation)
    : pyval * string * gmap string (option bool) * pynum * pynum :=
  (out_Product_ID r, out_Product_Name r, Hard_Constraints_Passed_Details r,
   Text_Similarity r, Final_Score r).

Definition outcome_core (o : outcome (list Recommendation))
    : outcome (list (pyval * string * gmap string (option bool) * pynum * pynum)) :=
  match o with
  | Returned l => Returned (map record_core l)
  | Raised e => Raised e
  end.

(** What an entry of [recommendation_data] takes from its candidate. *)
Definition from_candidate (c : Product * HCResult) (d : RecData) : Prop :=
  product_id d = Product_ID (fst c) /\ product_name d = Product_Name (fst c)
  /\ hard_constraint_score d = score (snd c)
  /\ hard_constraint_details d = constraints_passed_details (snd c).


(** Two candidates, and two entries of [recommendation_data], that differ
    at most in their explanation. *)
Definition same_core_cand (c1 c2 : Product * HCResult) : Prop :=
  fst c1 = fst c2 /\ score (snd c1) = score (snd c2)
  /\ constraints_passed_details (snd c1) = constraints_passed_details (snd c2).

Definition same_core_data (d1 d2 : RecData) : Prop :=
  product_id d1 = product_id d2 /\ product_name d1 = product_name d2
  /\ hard_constraint_score d1 = hard_constraint_score d2
  /\ hard_constraint_details d1 = hard_constraint_details d2
  /\ similarity_score d1 = similarity_score d2
  /\ final_score d1 = final_score d2.

(** ** recommender.py: the precomputation of [__init__] *)

(** The row with its [embedding] cell set. *)
Definition with_embedding (p : Product) (emb : list Q) : Product :=
  {| Product_ID := Product_ID p;
     Product_Name := Product_Name p;
     Description_And_Application := Description_And_Application p;
     Notes := Notes p;
     Connectivity := Connectivity p;
     Region_Support_List := Region_Support_List p;
     Connectivity_Lower_Text := Connectivity_Lower_Text p;
     Connectivity_List := Connectivity_List p;
     Deployment_Environment_Lower := Deployment_Environment_Lower p;
     embedding := emb |}.

Section Precomputation.
Context {UC : Unicode}.

(** [products_df.apply(lambda row: build_product_corpus(row, ...), axis=1)]:
    the corpora row by row, and the features table the calls leave. *)
Definition corpus_column_step (product_feature_map_df : list ProductFeature)
    (acc : list string * list Feature) (row : Product) : list string * list Feature :=
  let '(texts, features_df) := acc in
  let '(text, features_df') :=
    build_product_corpus (Some row) features_df product_feature_map_df in
  (texts ++ [text], features_df').

Definition corpus_column (products_df : list Product) (features_df : list Feature)
    (product_feature_map_df : list ProductFeature) : list string * list Feature :=
  fold_left (corpus_column_step product_feature_map_df) products_df ([], features_df).

(** [_precompute_product_data]: the rows with their embedding, the column
    [combined_text] and the features table afterwards. *)
Definition precompute_product_data (sm : SoftMatcher) (products_df : list Product)
    (features_df : list Feature) (product_feature_map_df : list ProductFeature)
    : list Product * list string * list Feature :=
  match products_df with
  | [] => ([], [], features_df)
  | _ =>
      let '(product_corpuses, features_df') :=
        corpus_column products_df features_df product_feature_map_df in
      let empty_arrays := replicate (length products_df) ([] : list Q) in
      let embeddings :=
        if forallb (fun text => negb (truthy text)) product_corpuses
        then empty_arrays
        else
          match get_embeddings sm product_corpuses with
          | Some embs =>
              if (length embs =? length products_df)%nat then embs else empty_arrays
          | None => empty_arrays
          end in
      (zip_with with_embedding products_df embeddings, product_corpuses, features_df')
  end.

End Precomputation.

(** ** api_main.py *)

(** A value of the request body as the JSON parser and pydantic hand it
    on; the items of a dict are in insertion order, with distinct keys. *)
#[warnings="-register-all"]
Inductive json :=
  | JNull
  | JBool (b : bool)
  | JNum (q : Q)
  | JStr (s : string)
  | JList (l : list json)
  | JDict (items : list (string * json)).

(** The request body after validation, as [model_dump(exclude_unset=True)]
    returns it. For each field of the pydantic model, [None] is a field
    the body did not set and [Some None] a field it set to [null].
    Validation has made sure that a section is a dict, [power] a list of
    strings and [scale] and [additionalDetails] strings; it looks at
    nothing inside a section. *)
Record ClientRequirements := {
  body_clientInfo : option (option (list (string * json)));
  body_region : option (option (list (string * json)));
  body_deployment : option (option (list (string * json)));
  body_application : option (option (list (string * json)));
  body_scale : option (option string);
  body_connectivity : option (option (list (string * json)));
  body_power : option (option (list string));
  body_additionalDetails : option (option string)
}.

Definition unset {A : Type} (field : option A) : bool :=
  match field with None => true | Some _ => false end.

(** [not client_requirements_json]: no field was set. *)
Definition requirements_dict_empty (c : ClientRequirements) : bool :=
  unset (body_clientInfo c) && unset (body_region c)
  && unset (body_deployment c) && unset (body_application c)
  && unset (body_scale c) && unset (body_connectivity c)
  && unset (body_power c) && unset (body_additionalDetails c).

(** *** The documents that follow the schema of [Requirements]

    A field that is set holds a value and not [null]; the leaves the
    matchers read are strings and lists of strings. *)

(** [d.get(k)]: the value of a key, [None] when the dict has no such key. *)
Fixpoint dict_get (k : string) (d : list (string * json)) : option json :=
  match d with
  | [] => None
  | (k', v) :: rest => if String.eqb k' k then Some v else dict_get k rest
  end.

(** A leaf that is absent or a string. *)
Definition read_str (v : option json) : option (option string) :=
  match v with
  | None => Some None
  | Some (JStr s) => Some (Some s)
  | Some _ => None
  end.

Fixpoint read_strs (l : list json) : option (list string) :=
  match l with
  | [] => Some []
  | JStr s :: rest => cons s <$> read_strs rest
  | _ :: _ => None
  end.

(** A leaf that is absent or a list of strings. *)
Definition read_str_list (v : option json) : option (option (list string)) :=
  match v with
  | None => Some None
  | Some (JList l) => Some <$> read_strs l
  | Some _ => None
  end.

(** The categories of [elaborate], each with its list of tokens. *)
Fixpoint read_categories (items : list (string * json))
    : option (list (string * list string)) :=
  match items with
  | [] => Some []
  | (category, JList l) :: rest =>
      tokens ← read_strs l;
      others ← read_categories rest;
      Some ((category, tokens) :: others)
  | _ :: _ => None
  end.

Definition read_elaborate (v : option json)
    : option (option (list (string * list string))) :=
  match v with
  | None => Some None
  | Some (JDict items) => Some <$> read_categories items
  | Some _ => None
  end.

(** A field that is not set, or set to a value that [read] accepts. *)
Definition read_field {A B : Type} (read : A -> option B)
    (field : option (option A)) : option (option B) :=
  match field with
  | None => Some None
  | Some None => None
  | Some (Some a) => Some <$> read a
  end.

Definition read_region (d : list (string * json)) : option Region :=
  band ← read_str (dict_get "frequencyBand" d);
  Some {| frequencyBand := band |}.

Definition read_deployment (d : list (string * json)) : option Deployment :=
  env ← read_str (dict_get "environment" d);
  Some {| environment := env |}.

Definition read_application (d : list (string * json)) : option Application :=
  type ← read_str (dict_get "type" d);
  subs ← read_str_list (dict_get "subtypes" d);
  other ← read_str (dict_get "otherSubtype" d);
  Some {| app_type := type; subtypes := subs; otherSubtype := other |}.

Definition read_connectivity (d : list (string * json)) : option ConnectivityReq :=
  categories ← read_elaborate (dict_get "elaborate" d);
  Some {| elaborate := categories |}.

(** The requirement document of a body, when the body follows the
    schema. The fields [clientInfo] and [scale] are not read. *)
Definition requirements_of (c : ClientRequirements) : option Requirements :=
  reg ← read_field read_region (body_region c);
  dep ← read_field read_deployment (body_deployment c);
  app ← read_field read_application (body_application c);
  conn ← read_field read_connectivity (body_connectivity c);
  pow ← read_field Some (body_power c);
  details ← read_field Some (body_additionalDetails c);
  Some {| region := reg; deployment := dep; application := app;
          connectivity := conn; power := pow; additionalDetails := details |}.

(** The two globals the start-up sets; the instance is the catalog the
    recommender holds. *)
Record ApiState := {
  initialization_error_message : option string;
  recommender_instance : option (list Product)
}.

Inductive http_response :=
  | Http200 (body : list Recommendation)
  | HttpError (status_code : Z).

(** [if initialization_error_message:] *)
Definition message_set (m : option string) : bool :=
  match m with Some s => truthy s | None => false end.

(** [health_check]: [true] is the answer "healthy". *)
Definition health_check (st : ApiState) : bool :=
  if message_set (initialization_error_message st) then false
  else match recommender_instance st with None => false | Some _ => true end.

Section Api.
Context {UC : Unicode}.

Variable set_iter : list string -> list string.
Variable repr_list : list string -> string.
Variable float_mul : Q -> Q -> Q.
Variable float_add : Q -> Q -> Q.
Variable float_round : Q -> Z -> Q.
Variable format_2f : Q -> string.
Variable soft_matcher : SoftMatcher.

(** [recommend(..., top_n=3)] on a document outside the schema, one with a
    section sent as [null] or a leaf of another type: what the call
    returns or raises then is left open. *)
Variable recommend_other :
  list Product -> ClientRequirements -> outcome (list Recommendation).

(** [recommender_instance.recommend(client_requirements_json, top_n=3)] *)
Definition recommend_body (products_df : list Product) (c : ClientRequirements)
    : outcome (list Recommendation) :=
  match requirements_of c with
  | Some req =>
      recommend set_iter repr_list float_mul float_add float_round
        format_2f soft_matcher products_df req (Some 3)
  | None => recommend_other products_df c
  end.

(** [get_recommendations_api]: an [HTTPException] raised inside the [try]
    is raised again as it is, any other exception becomes a 500. *)
Definition get_recommendations_api (st : ApiState) (c : ClientRequirements)
    : http_response :=
  if message_set (initialization_error_message st) then HttpError 503
  else
    match recommender_instance st with
    | None => HttpError 503
    | Some products_df =>
        if requirements_dict_empty c then HttpError 400
        else
          match recommend_body products_df c with
          | Returned recommendations => Http200 recommendations
          | Raised _ => HttpError 500
          end
    end.

End Api.

(** ** A character database for the sample data

    ASCII letters have a case, no other character has one and no
    character outside ASCII is alphanumeric. The sample data is ASCII, on
    which every database agrees with this one. *)
Definition ascii_case : Unicode.
Proof.
  assert (Hbyte : forall c,
            is_cont (lower_char c) = is_cont c
            /\ is_ascii (lower_char c) = is_ascii c
            /\ lower_char (lower_char c) = lower_char c
            /\ (is_upper c = true -> is_lower (lower_char c) = true)).
  { intros c. destruct c as [[] [] [] [] [] [] [] []];
      repeat split; try reflexivity; intros H; discriminate H. }
  assert (Happ : forall a b, ascii_lower (a +:+ b) = ascii_lower a +:+ ascii_lower b).
  { intros a b. induction a as [|c a IH]; [reflexivity|].
    change (String (lower_char c) (ascii_lower (a +:+ b))
            = String (lower_char c) (ascii_lower a +:+ ascii_lower b)).
    by rewrite IH. }
  assert (Hun : forall l, unchars (map ascii_lower l) = ascii_lower (unchars l)).
  { induction l as [|g l IH]; [reflexivity|].
    cbn [map unchars foldr]. fold (unchars (map ascii_lower l)) (unchars l).
    by rewrite Happ, IH. }
  assert (Hchars : forall s, chars (ascii_lower s) = map ascii_lower (chars s)).
  { induction s as [|a t IH]; [reflexivity|].
    change (chars (ascii_lower (String a t)))
      with (match chars (ascii_lower t) with
            | g :: l =>
                if starts_cont g && negb (is_ascii (lower_char a))
                then String (lower_char a) g :: l
                else String (lower_char a) "" :: g :: l
            | [] => [String (lower_char a) ""]
            end).
    rewrite IH. cbn [chars]. destruct (chars t) as [|g l]; [reflexivity|].
    cbn [map].
    assert (starts_cont (ascii_lower g) = starts_cont g) as ->.
    { destruct g as [|b g]; [reflexivity|]. apply (Hbyte b). }
    rewrite (proj1 (proj2 (Hbyte a))).
    by destruct (starts_cont g && negb (is_ascii a)). }
  assert (Heqb : forall w g,
            all_bytes (fun c => negb (is_upper c) && negb (is_lower c)) w = true ->
            String.eqb (ascii_lower g) w = String.eqb g w).
  { induction w as [|b w IH]; intros [|a g] Hw; try reflexivity.
    cbn [all_bytes] in Hw.
    apply andb_true_iff in Hw as [Hb Hw].
    apply andb_true_iff in Hb as [Hu Hl].
    apply negb_true_iff in Hu, Hl.
    change (Ascii.eqb (lower_char a) b && String.eqb (ascii_lower g) w
            = Ascii.eqb a b && String.eqb g w).
    rewrite (IH g Hw). f_equal.
    destruct (Ascii.eqb_spec (lower_char a) b) as [E1|E1];
      destruct (Ascii.eqb_spec a b) as [E2|E2]; try reflexivity.
    - exfalso. unfold lower_char in E1. destruct (is_upper a) eqn:Ea; [|done].
      pose proof (proj2 (proj2 (proj2 (Hbyte a))) Ea) as Hlow.
      unfold lower_char in Hlow. rewrite Ea in Hlow. congruence.
    - exfalso. subst b. unfold lower_char in E1. by rewrite Hu in E1. }
  assert (Hsp : forall g, is_space (ascii_lower g) = is_space g).
  { intros g. unfold is_space.
    assert (Hws : forallb (all_bytes (fun c => negb (is_upper c) && negb (is_lower c)))
                    whitespace = true)
      by (vm_compute; reflexivity).
    induction whitespace as [|w ws IH]; [reflexivity|].
    cbn [forallb] in Hws. apply andb_true_iff in Hws as [Hw Hws].
    cbn [existsb]. by rewrite (Heqb w g Hw), (IH Hws). }
  assert (Hls : forall l, lstrip (map ascii_lower l) = map ascii_lower (lstrip l)).
  { induction l as [|g l IH]; [reflexivity|].
    cbn [map lstrip]. rewrite Hsp. by destruct (is_space g). }
  assert (Hall : forall l, all_space (map ascii_lower l) = all_space l).
  { induction l as [|g l IH]; [reflexivity|].
    cbn [map all_space]. by rewrite Hsp, IH. }
  assert (Hrs : forall l, rstrip (map ascii_lower l) = map ascii_lower (rstrip l)).
  { induction l as [|g l IH]; [reflexivity|].
    change (rstrip (map ascii_lower (g :: l)))
      with (if all_space (map ascii_lower (g :: l)) then []
            else ascii_lower g :: rstrip (map ascii_lower l)).
    rewrite Hall, IH. cbn [rstrip]. by destruct (all_space (g :: l)). }
  assert (Hcol : forall b l,
            collapse_ws_from b (map ascii_lower l)
            = map ascii_lower (collapse_ws_from b l)).
  { intros b l. revert b. induction l as [|g l IH]; intros b; [reflexivity|].
    cbn [map collapse_ws_from]. rewrite Hsp, !IH.
    destruct (is_space g); [by destruct b | reflexivity]. }
  refine
    {| lower := ascii_lower;
       upper := ascii_upper;
       capitalize := ascii_capitalize;
       isalnum := fun c =>
         match c with
         | String a EmptyString =>
             is_ascii a && (is_upper a || is_lower a || is_digit a)
         | _ => false
         end |}.
  - reflexivity.
  - reflexivity.
  - reflexivity.
  - intros a Ha. by rewrite Ha.
  - intros [|c s] H; [reflexivity | discriminate H].
  - induction s as [|c s IH]; [reflexivity|].
    change (String (lower_char (lower_char c)) (ascii_lower (ascii_lower s))
            = String (lower_char c) (ascii_lower s)).
    by rewrite IH, (proj1 (proj2 (proj2 (Hbyte c)))).
  - intros s H. unfold strip. rewrite Hchars, Hls, Hrs, Hun.
    fold (strip s). by rewrite H.
  - intros s H. unfold collapse_ws. rewrite Hchars, Hcol, Hun.
    fold (collapse_ws s). by rewrite H.
Defined.

(** ** Sample data *)

Definition raw_gateway : RawProduct :=
  {| raw_Product_ID := PStr "P1";
     raw_Product_Name := PStr "Gateway";
     raw_Description_And_Application :=
       PStr "Outdoor gateway with DC power and AC power input, on the back";
     raw_Notes := PNaN;
     raw_Connectivity := PStr "LoRaWAN, Ethernet";
     raw_Deployment_Environment := PStr "Outdoor";
     raw_Region_Support := PStr "US915, EU868" |}.

(** The row the loader makes of [raw_gateway]. *)
Definition p_gateway : Product :=
  {| Product_ID := PStr "P1";
     Product_Name := "Gateway";
     Description_And_Application :=
       PStr "Outdoor gateway with DC power and AC power input, on the back";
     Notes := PStr "";
     Connectivity := PStr "LoRaWAN, Ethernet";
     Region_Support_List := ["us915"; "eu868"];
     Connectivity_Lower_Text := "lorawan, ethernet";
     Connectivity_List := ["lorawan"; "ethernet"];
     Deployment_Environment_Lower := "outdoor";
     embedding := [] |}.

(** A product whose connectivity cell is blank. *)
Definition raw_bare : RawProduct :=
  {| raw_Product_ID := PStr "P2";
     raw_Product_Name := PStr "Enclosure";
     raw_Description_And_Application := PStr "Weatherproof enclosure";
     raw_Notes := PNaN;
     raw_Connectivity := PNaN;
     raw_Deployment_Environment := PStr "Both";
     raw_Region_Support := PNaN |}.

(** The row the loader makes of [raw_bare]. *)
Definition p_bare : Product :=
  {| Product_ID := PStr "P2";
     Product_Name := "Enclosure";
     Description_And_Application := PStr "Weatherproof enclosure";
     Notes := PStr "";
     Connectivity := PStr "";
     Region_Support_List := [];
     Connectivity_Lower_Text := "";
     Connectivity_List := [];
     Deployment_Environment_Lower := "both";
     embedding := [] |}.

(** The requirement with no section at all. *)
Definition req_none : Requirements :=
  {| region := None; deployment := None; application := None;
     connectivity := None; power := None; additionalDetails := None |}.

Definition req_full : Requirements :=
  {| region := Some {| frequencyBand := Some "US915" |};
     deployment := Some {| environment := Some "Both" |};
     application := None;
     connectivity :=
       Some {| elaborate := Some [("radio", ["lorawan"; "BLE"]);
                                  ("wired", ["ethernet"])] |};
     power := Some ["DC Power"; "AC Power"];
     additionalDetails := None |}.

(** Only connectivity, with the single token [""]. *)
Definition req_empty_token : Requirements :=
  {| region := None; deployment := None; application := None;
     connectivity := Some {| elaborate := Some [("wirelessCommunication", [""])] |};
     power := None; additionalDetails := None |}.

(** Only power, with two labels. *)
Definition req_two_powers : Requirements :=
  {| region := None; deployment := None; application := None;
     connectivity := None;
     power := Some ["DC Power"; "AC Power"]; additionalDetails := None |}.

(** Only a band no sample product supports. *)
Definition req_as923 : Requirements :=
  {| region := Some {| frequencyBand := Some "AS923" |};
     deployment := None; application := None;
     connectivity := None; power := None; additionalDetails := None |}.

(** A soft matcher whose model failed to load. *)
Definition sm_unavailable : SoftMatcher :=
  {| model_loaded := false;
     encode := fun _ => None;
     cos_sim := fun _ _ => None |}.

(** Products that differ in their identifier and embedding only. *)
Definition raw_numbered (id : string) : RawProduct :=
  {| raw_Product_ID := PStr id;
     raw_Product_Name := PStr "Node";
     raw_Description_And_Application := PStr "Sensor node, battery powered";
     raw_Notes := PNaN;
     raw_Connectivity := PStr "LoRaWAN";
     raw_Deployment_Environment := PStr "Indoor";
     raw_Region_Support := PStr "EU868" |}.

(** The row the loader makes of [raw_numbered id]. *)
Definition p_numbered (id : string) (emb : list Q) : Product :=
  {| Product_ID := PStr id;
     Product_Name := "Node";
     Description_And_Application := PStr "Sensor node, battery powered";
     Notes := PStr "";
     Connectivity := PStr "LoRaWAN";
     Region_Support_List := ["eu868"];
     Connectivity_Lower_Text := "lorawan";
     Connectivity_List := ["lorawan"];
     Deployment_Environment_Lower := "indoor";
     embedding := emb |}.

Definition catalog_six : list Product :=
  map (fun id => p_numbered id []) ["N1"; "N2"; "N3"; "N4"; "N5"; "N6"].

(** The identifiers of a returned list, and its explanations. *)
Definition ids_of (o : outcome (list Recommendation)) : list pyval :=
  match o with Returned l => map out_Product_ID l | Raised _ => [] end.

Definition explanations_of (o : outcome (list Recommendation)) : list (list string) :=
  match o with Returned l => map Explanation_Details l | Raised _ => [] end.

(** A features table and a mapping table as [pd.read_csv] types them when
    the feature identifiers are numbers. *)
Definition features_numeric : list Feature :=
  [{| Feature_ID := PInt 7; Feature_Name := PStr "GPS";
      Feature_Description := PStr "Built-in  GPS receiver" |}].

Definition mapping_numeric : list ProductFeature :=
  [{| map_Product_ID := PStr "P1"; map_Feature_ID := PInt 7 |}].

(** Every identifier of the features table is a string. *)
Definition feature_ids_are_strings (features_df : list Feature) : Prop :=
  Forall (fun f => exists s, Feature_ID f = PStr s) features_df.

(** Only connectivity, with two tokens the gateway does not offer. *)
Definition req_ble_wifi : Requirements :=
  {| region := None; deployment := None; application := None;
     connectivity := Some {| elaborate := Some [("wirelessCommunication", ["ble"; "wifi"])] |};
     power := None; additionalDetails := None |}.

(** A model that is loaded but whose encoder raises. *)
Definition sm_encoder_fails : SoftMatcher :=
  {| model_loaded := true;
     encode := fun _ => None;
     cos_sim := fun _ _ => None |}.

(** A stand-in for a loaded model: every text is embedded as the vector
    [1], and the score of a vector is its first component. *)
Definition sm_sample : SoftMatcher :=
  {| model_loaded := true;
     encode := fun texts => Some (map (fun _ => [1%Q]) texts);
     cos_sim := fun _ embs => Some (map (fun e => hd 0%Q e) embs) |}.

(** Three rows, the second without an embedding. *)
Definition catalog_embedded : list Product :=
  [p_numbered "E1" [(1 # 2)%Q];
   p_numbered "E2" [];
   p_numbered "E3" [(1 # 4)%Q]].

(** Only free text. *)
Definition req_text : Requirements :=
  {| region := None; deployment := None;
     application := Some {| app_type := Some "Asset Tracking";
                            subtypes := None; otherSubtype := None |};
     connectivity := None; power := None; additionalDetails := None |}.

(** What a call returned, the empty list if it raised. *)
Definition returned_list (o : outcome (list Recommendation)) : list Recommendation :=
  match o with Returned l => l | Raised _ => [] end.

Definition api_ready : ApiState :=
  {| initialization_error_message := None;
     recommender_instance := Some catalog_six |}.

(** A body that sets [clientInfo] to an empty dict and nothing else. *)
Definition body_no_text : ClientRequirements :=
  {| body_clientInfo := Some (Some []); body_region := None;
     body_deployment := None; body_application := None; body_scale := None;
     body_connectivity := None; body_power := None;
     body_additionalDetails := None |}.

(** A body that sets [region] to [null] and nothing else. *)
Definition body_null_region : ClientRequirements :=
  {| body_clientInfo := None; body_region := Some None;
     body_deployment := None; body_application := None; body_scale := None;
     body_connectivity := None; body_power := None;
     body_additionalDetails := None |}.

(** [recommend] on a document outside the schema, when it raises as
    [None.get] or [915.lower()] does. *)
Definition raises_attribute_error (products_df : list Product)
    (c : ClientRequirements) : outcome (list Recommendation) :=
  Raised "AttributeError".

(** Only power, with the label that has no keyword. *)
Definition req_power_other : Requirements :=
  {| region := None; deployment := None; application := None;
     connectivity := None;
     power := Some ["Other / Not Specified"]; additionalDetails := None |}.

(** Only connectivity, with the token that has no keyword. *)
Definition req_lpwan_other : Requirements :=
  {| region := None; deployment := None; application := None;
     connectivity := Some {| elaborate := Some [("wirelessCommunication", ["lpwan_other"])] |};
     power := None; additionalDetails := None |}.

Section SampleCalls.
#[local] Existing Instance ascii_case.

(** [recommend] on a recommender whose model failed to load; the float
    operations are never reached. *)
Definition recommend_degraded (so : SetOrder) (products_df : list Product)
    (req : Requirements) (top_n : option Z) : outcome (list Recommendation) :=
  recommend so repr_simple Qmult Qplus (fun q _ => q) (fun _ => "")
    sm_unavailable products_df req top_n.

Definition recommend_run_sample (sm : SoftMatcher) (products_df : list Product)
    (req : Requirements) (n : Z) : outcome (list Recommendation) * list Event :=
  recommend_run set_first repr_simple Qmult Qplus (fun q _ => q) (fun _ => "")
    sm products_df req n.

Definition recommend_sample (sm : SoftMatcher) (products_df : list Product)
    (req : Requirements) (top_n : option Z) : outcome (list Recommendation) :=
  recommend set_first repr_simple Qmult Qplus (fun q _ => q) (fun _ => "")
    sm products_df req top_n.

End SampleCalls.

(** ** Proof steps *)

(** The branches of [build_product_corpus]. *)
Ltac bpc_cases row features_df product_feature_map_df :=
  unfold build_product_corpus; cbv zeta;
  destruct row as [row|]; [|cbn [fst snd]];
  [destruct features_df as [|f fs]; [cbn [fst snd]|];
   [|destruct product_feature_map_df as [|m ms]; [cbn [fst snd]|];
     [|destruct (truthy (py_str (Product_ID row))); [|cbn [fst snd]];
       [destruct (map map_Feature_ID
                    (filter (fun m0 => map_Product_ID m0 = PStr (py_str (Product_ID row)))
                       (m :: ms))) as [|a ids]; cbn [fst snd]|]]]|].

(** * Properties *)

Section Properties.
Context {UC : Unicode}.

(** ** Strings *)

Section StringFacts.

Lemma app_cons (c : ascii) (s t : string) : String c s +:+ t = String c (s +:+ t).
Proof. reflexivity. Qed.

Lemma app_empty_l (s : string) : "" +:+ s = s.
Proof. reflexivity. Qed.

Lemma app_empty_r (s : string) : s +:+ "" = s.
Proof. induction s as [|c s IH]; [reflexivity | by rewrite app_cons, IH]. Qed.

Lemma app_assoc_str (a b c : string) : (a +:+ b) +:+ c = a +:+ (b +:+ c).
Proof. induction a as [|x a IH]; [reflexivity | by rewrite !app_cons, IH]. Qed.

Lemma starts_with_spec (p s : string) :
  starts_with p s = true <-> exists post, s = p +:+ post.
Proof.
  revert s. induction p as [|a p IH]; intros s; simpl.
  - split; [intros _; by exists s | done].
  - setoid_rewrite app_cons.
    destruct s as [|b s]; [split; [done | intros [post H]; discriminate] |].
    destruct (Ascii.eqb_spec a b) as [->|Hne].
    + rewrite IH. split; intros [post H]; exists post; congruence.
    + split; [done | intros [post H]; congruence].
Qed.

Lemma contains_spec (kw text : string) :
  contains kw text = true <-> substring kw text.
Proof.
  unfold substring. induction text as [|c t IH]; simpl.
  - rewrite orb_false_r, starts_with_spec. split.
    + intros [post H]. by exists "", post.
    + intros (pre & post & H). destruct pre; [by exists post | discriminate].
  - rewrite orb_true_iff, starts_with_spec, IH. split.
    + intros [[post H] | (pre & post & H)].
      * by exists "", post.
      * exists (String c pre), post. by rewrite app_cons, H.
    + intros (pre & post & H). destruct pre as [|x pre].
      * left. by exists post.
      * right. exists pre, post. rewrite app_cons in H. congruence.
Qed.






End StringFacts.

(** ** The constraint evaluator *)

Section HardMatcherFacts.

Variable set_iter : list string -> list string.
Variable repr_list : list string -> string.

Lemma weight_frequency_band : weight "frequency_band" = 5.
Proof. reflexivity. Qed.
Lemma weight_environment : weight "environment" = 3.
Proof. reflexivity. Qed.
Lemma weight_connectivity_option : weight "connectivity_option" = 2.
Proof. reflexivity. Qed.
Lemma weight_power_keyword : weight "power_keyword" = 1.
Proof. reflexivity. Qed.

Lemma check_frequency_band_outcome p req st :
  exists msg,
    check_frequency_band repr_list p req st =
    record_outcome "frequency_band" (freq_outcome p req)
      (points (weight "frequency_band") (freq_outcome p req)) msg st.
Proof.
  unfold check_frequency_band, freq_outcome.
  destruct (truthy (req_freq_band req)).
  - case_bool_decide; eexists; unfold record_outcome, explain, add_score,
      fail_overall, set_detail; simpl; [reflexivity|].
    rewrite Z.add_0_r. reflexivity.
  - eexists. unfold record_outcome, explain, set_detail; simpl.
    rewrite Z.add_0_r. reflexivity.
Qed.

Lemma check_environment_outcome p req st :
  exists msg,
    check_environment p req st =
    record_outcome "environment" (env_outcome p req)
      (points (weight "environment") (env_outcome p req)) msg st.
Proof.
  unfold check_environment, env_outcome.
  destruct (truthy (req_env req)).
  - destruct (matched_env _ _); eexists; unfold record_outcome, explain,
      add_score, fail_overall, set_detail; simpl; [reflexivity|].
    rewrite Z.add_0_r. reflexivity.
  - eexists. unfold record_outcome, explain, set_detail; simpl.
    rewrite Z.add_0_r. reflexivity.
Qed.

Lemma conn_loop_from p ids found sc any :
  fold_left (conn_loop_step p) ids (found, sc, any) =
  (found ++ map upper (filter (fun t => conn_id_matched p t = true) ids),
   sc + weight "connectivity_option"
        * Z.of_nat (length (filter (fun t => conn_id_matched p t = true) ids)),
   any || existsb (conn_id_matched p) ids).
Proof.
  revert found sc any. induction ids as [|t ids IH]; intros found sc any.
  - simpl. rewrite app_nil_r, orb_false_r. f_equal. f_equal. lia.
  - cbn [fold_left existsb]. unfold conn_loop_step at 2.
    rewrite filter_cons. destruct (conn_id_matched p t) eqn:Ht.
    + rewrite IH. rewrite decide_True by done. cbn [map length].
      rewrite <- app_assoc. simpl. rewrite orb_true_r. f_equal. f_equal. lia.
    + rewrite IH. rewrite decide_False by congruence. reflexivity.
Qed.

Lemma check_connectivity_outcome p req st :
  exists msg,
    check_connectivity set_iter p req st =
    record_outcome "connectivity" (conn_outcome set_iter p req)
      (conn_points set_iter p req) msg st.
Proof.
  unfold check_connectivity, conn_outcome, conn_points, matched_conn_ids.
  destruct (user_connectivity_reqs_ids set_iter req) as [|t ids] eqn:Hids.
  - eexists. unfold record_outcome, explain, set_detail.
    cbn [overall_pass score constraints_passed_details explanation].
    rewrite filter_nil. cbn [length Z.of_nat].
    rewrite Z.mul_0_r, Z.add_0_r. reflexivity.
  - unfold conn_loop. rewrite conn_loop_from. rewrite orb_false_l.
    destruct (existsb (conn_id_matched p) (t :: ids)); eexists;
      unfold record_outcome, explain, with_score, fail_overall, set_detail;
      cbn [overall_pass score constraints_passed_details explanation];
      reflexivity.
Qed.

Lemma power_found_from text labels found :
  fold_left (power_loop_step text) labels found = [] <->
  found = [] /\ existsb (label_matched text) labels = false.
Proof.
  revert found. induction labels as [|l labels IH]; intros found.
  - simpl. tauto.
  - cbn [fold_left existsb]. rewrite IH. unfold power_loop_step, label_matched at 2.
    unfold first_power_keyword.
    destruct (find _ (power_keywords_for_label l)) as [kw|] eqn:Hf.
    + apply find_some in Hf as [Hin Hkw].
      assert (existsb (fun kw => re_search_word kw text) (power_keywords_for_label l) = true) as ->.
      { apply existsb_exists. eauto. }
      simpl. split; [intros [H _]; by destruct found | intros [_ H]; done].
    + assert (existsb (fun kw => re_search_word kw text) (power_keywords_for_label l) = false) as ->.
      { apply not_true_is_false. intros (kw & Hin & Hkw)%existsb_exists.
        eapply find_none in Hf; [|exact Hin]. simpl in Hf. congruence. }
      simpl. tauto.
Qed.

Lemma check_power_outcome p req st :
  exists msg,
    check_power set_iter p req st =
    record_outcome "power" (power_outcome p req)
      (points (weight "power_keyword") (power_outcome p req)) msg st.
Proof.
  unfold check_power, power_outcome.
  destruct (req_power_options_labels req) as [|l labels] eqn:Hl.
  - eexists. unfold record_outcome, explain, set_detail; simpl.
    rewrite Z.add_0_r. reflexivity.
  - destruct (power_keywords_found _ (l :: labels)) as [|f found] eqn:Hf.
    + apply power_found_from in Hf as [_ ->]. eexists.
      unfold record_outcome, explain, fail_overall, set_detail; simpl.
      rewrite Z.add_0_r. reflexivity.
    + assert (existsb (label_matched (product_text_for_power p)) (l :: labels) = true) as ->.
      { apply not_false_is_true. intros H.
        assert (power_keywords_found (product_text_for_power p) (l :: labels) = []) as H'.
        { apply power_found_from. done. }
        congruence. }
      eexists. unfold record_outcome, explain, add_score, set_detail; simpl.
      reflexivity.
Qed.

(** The whole result, block by block. *)
Lemma check_constraints_outcome p req :
  exists m1 m2 m3 m4,
    check_constraints set_iter repr_list p req =
    {| overall_pass :=
         match power_outcome p req with Some false => false | _ =>
         match conn_outcome set_iter p req with Some false => false | _ =>
         match env_outcome p req with Some false => false | _ =>
         match freq_outcome p req with Some false => false | _ => true
         end end end end;
       score :=
         points (weight "frequency_band") (freq_outcome p req)
         + points (weight "environment") (env_outcome p req)
         + conn_points set_iter p req
         + points (weight "power_keyword") (power_outcome p req);
       constraints_passed_details :=
         <["power" := power_outcome p req]>
           (<["connectivity" := conn_outcome set_iter p req]>
              (<["environment" := env_outcome p req]>
                 (<["frequency_band" := freq_outcome p req]> ∅)));
       explanation := [m1; m2; m3; m4] |}.
Proof.
  unfold check_constraints.
  destruct (check_frequency_band_outcome p req initial_result) as [m1 ->].
  destruct (check_environment_outcome p req
              (record_outcome "frequency_band" (freq_outcome p req)
                 (points (weight "frequency_band") (freq_outcome p req)) m1
                 initial_result)) as [m2 ->].
  destruct (check_connectivity_outcome p req
              (record_outcome "environment" (env_outcome p req)
                 (points (weight "environment") (env_outcome p req)) m2
              (record_outcome "frequency_band" (freq_outcome p req)
                 (points (weight "frequency_band") (freq_outcome p req)) m1
                 initial_result))) as [m3 ->].
  match goal with |- context [check_power _ _ _ ?st] =>
    destruct (check_power_outcome p req st) as [m4 ->] end.
  exists m1, m2, m3, m4. unfold record_outcome, initial_result. simpl.
  reflexivity.
Qed.

End HardMatcherFacts.

(** ** Claims on the constraint evaluator *)

Lemma lower_empty_string : lower "" = "".
Proof. by rewrite lower_ascii. Qed.

Lemma truthy_lower (e : string) : truthy (lower e) = true <-> e <> "".
Proof.
  split.
  - intros H ->. by rewrite lower_empty_string in H.
  - intros Hne. destruct (lower e) eqn:E; [|done]. by apply lower_empty in E.
Qed.

Lemma conn_id_matched_spec (p : Product) (t : string) :
  conn_id_matched p t = true <-> conn_token_matches p t.
Proof.
  unfold conn_id_matched, conn_token_matches. rewrite existsb_exists.
  split; intros (kw & Hin & H); exists kw.
  - apply list_elem_of_In in Hin. split; [done|].
    unfold conn_keyword_hit in H. apply orb_true_iff in H as [H|H].
    + left. by apply bool_decide_eq_true in H.
    + right. apply andb_true_iff in H as [H1 H2]. split.
      * intros E. rewrite E in H1. discriminate.
      * by apply contains_spec.
  - split; [by apply list_elem_of_In|].
    unfold conn_keyword_hit. apply orb_true_iff. destruct H as [H|[H1 H2]].
    + left. by apply bool_decide_eq_true.
    + right. apply andb_true_iff. split.
      * by destruct (Connectivity_Lower_Text p).
      * by apply contains_spec.
Qed.


Lemma matched_env_spec (product_env renv : string) :
  matched_env product_env renv = true <-> env_compatible product_env renv.
Proof.
  unfold matched_env, env_compatible.
  repeat case_bool_decide; simpl; split; intros Hm; try done; try tauto.
  all: try (destruct Hm as [Hm|[[Hm1 Hm2]|[Hm1 Hm2]]]; done).
Qed.

Lemma existsb_elem_of {A} (f : A -> bool) (l : list A) :
  existsb f l = true <-> exists x, x ∈ l /\ f x = true.
Proof.
  rewrite existsb_exists. by setoid_rewrite list_elem_of_In.
Qed.

(** The keys of the details are pairwise distinct, so each lookup reads
    the outcome of its own block. *)
Section Lookups.
Variables o1 o2 o3 o4 : option bool.
Local Abbreviation d :=
  (<["power" := o4]> (<["connectivity" := o3]>
     (<["environment" := o2]> (<["frequency_band" := o1]> (∅ : gmap string (option bool)))))).

Lemma details_frequency_band : d !! "frequency_band" = Some o1.
Proof. by simplify_map_eq. Qed.
Lemma details_environment : d !! "environment" = Some o2.
Proof. by simplify_map_eq. Qed.
Lemma details_connectivity : d !! "connectivity" = Some o3.
Proof. by simplify_map_eq. Qed.
Lemma details_power : d !! "power" = Some o4.
Proof. by simplify_map_eq. Qed.
Lemma details_dom :
  dom d = ({["frequency_band"; "environment"; "connectivity"; "power"]} : gset string).
Proof. rewrite !dom_insert_L, dom_empty_L. set_solver. Qed.
Lemma details_lookup k v :
  d !! k = Some v -> v = o1 \/ v = o2 \/ v = o3 \/ v = o4.
Proof.
  intros H.
  destruct (decide (k = "power")) as [->|]; [simplify_map_eq; tauto|].
  destruct (decide (k = "connectivity")) as [->|]; [simplify_map_eq; tauto|].
  destruct (decide (k = "environment")) as [->|]; [simplify_map_eq; tauto|].
  destruct (decide (k = "frequency_band")) as [->|]; [simplify_map_eq; tauto|].
  simplify_map_eq.
Qed.
End Lookups.

Section ConstraintClaims.

Variable repr_list : list string -> string.

(** C6. With every constraint dimension absent from the requirement, the
    evaluation of any product passes, scores 0 and records the outcome
    null (not applicable) for each of the four dimensions. *)
Theorem absent_requirement_passes (so : SetOrder) (p : Product) (req : Requirements) :
  region req ≫= frequencyBand = None ->
  deployment req ≫= environment = None ->
  connectivity req ≫= elaborate = None ->
  power req = None ->
  let r := check_constraints so repr_list p req in
  overall_pass r = true /\ score r = 0 /\
  constraints_passed_details r !! "frequency_band" = Some None /\
  constraints_passed_details r !! "environment" = Some None /\
  constraints_passed_details r !! "connectivity" = Some None /\
  constraints_passed_details r !! "power" = Some None.
Proof.
  intros Hf He Hc Hp r.
  assert (Hfo : freq_outcome p req = None).
  { unfold freq_outcome, req_freq_band. rewrite Hf. simpl.
    by rewrite lower_empty_string. }
  assert (Heo : env_outcome p req = None).
  { unfold env_outcome, req_env. rewrite He. simpl.
    by rewrite lower_empty_string. }
  assert (Hids : user_connectivity_reqs_ids so req = []).
  { unfold user_connectivity_reqs_ids, flattened_conn_ids. rewrite Hc. simpl.
    destruct (so []) as [|x l] eqn:E; [done|].
    assert (x ∈ so []) as Hx by (rewrite E; left).
    apply iter_order_elem in Hx. by apply elem_of_nil in Hx. }
  assert (Hco : conn_outcome so p req = None).
  { unfold conn_outcome. by rewrite Hids. }
  assert (Hcp : conn_points so p req = 0).
  { unfold conn_points, matched_conn_ids. rewrite Hids. simpl. lia. }
  assert (Hpo : power_outcome p req = None).
  { unfold power_outcome, req_power_options_labels. by rewrite Hp. }
  subst r. destruct (check_constraints_outcome so repr_list p req)
    as (m1 & m2 & m3 & m4 & ->).
  rewrite Hfo, Heo, Hco, Hcp, Hpo. cbn [overall_pass score constraints_passed_details points].
  split_and!; [done | done | apply details_frequency_band
    | apply details_environment | apply details_connectivity
    | apply details_power].
Qed.

(** C10. The result of an evaluation always has the same shape: the
    details hold exactly the keys frequency_band, environment,
    connectivity and power; the explanation holds four strings, one per
    dimension; and the flag [overall_pass] is true exactly when no value of
    the details is false. *)
Theorem result_shape (set_iter : list string -> list string)
    (p : Product) (req : Requirements) :
  let r := check_constraints set_iter repr_list p req in
  dom (constraints_passed_details r)
    = ({["frequency_band"; "environment"; "connectivity"; "power"]} : gset string)
  /\ length (explanation r) = 4%nat
  /\ (overall_pass r = true <->
      forall k, constraints_passed_details r !! k <> Some (Some false)).
Proof.
  intros r. subst r.
  destruct (check_constraints_outcome set_iter repr_list p req)
    as (m1 & m2 & m3 & m4 & ->).
  cbn [overall_pass explanation constraints_passed_details].
  split; [apply details_dom|]. split; [done|]. split.
  - intros H k Hk. apply details_lookup in Hk.
    destruct (power_outcome p req) as [[]|]; try done;
    (destruct (conn_outcome set_iter p req) as [[]|]; try done);
    (destruct (env_outcome p req) as [[]|]; try done);
    (destruct (freq_outcome p req) as [[]|]; try done);
    destruct Hk as [E|[E|[E|E]]]; congruence.
  - intros H.
    pose proof (H "frequency_band") as H1. rewrite details_frequency_band in H1.
    pose proof (H "environment") as H2. rewrite details_environment in H2.
    pose proof (H "connectivity") as H3. rewrite details_connectivity in H3.
    pose proof (H "power") as H4. rewrite details_power in H4.
    destruct (power_outcome p req) as [[]|]; [|done|];
    (destruct (conn_outcome set_iter p req) as [[]|]; [|done|]);
    (destruct (env_outcome p req) as [[]|]; [|done|]);
    (destruct (freq_outcome p req) as [[]|]; done).
Qed.

(** C5. When the requirement names a deployment environment, the
    environment dimension passes exactly when the product environment
    equals the lower-cased requirement, or the requirement is "both" and
    the product environment is indoor, outdoor, both or unspecified, or the
    product environment is "both" and the requirement is indoor or outdoor;
    every other combination fails. The product environment is the
    lower-cased cell of the catalog, so the comparison ignores case. *)
Theorem environment_compatibility (set_iter : list string -> list string)
    (p : Product) (req : Requirements) (e : string) :
  deployment req ≫= environment = Some e ->
  e <> "" ->
  let d := constraints_passed_details (check_constraints set_iter repr_list p req)
             !! "environment" in
  (d = Some (Some true) <->
     env_compatible (Deployment_Environment_Lower p) (lower e))
  /\ (d = Some (Some false) <->
     ~ env_compatible (Deployment_Environment_Lower p) (lower e))
  /\ (forall (raw : RawProduct) (emb : list Q) (s : string) (row : Product),
        raw_Deployment_Environment raw = PStr s ->
        preprocess_row raw emb = Some row ->
        Deployment_Environment_Lower row = lower s).
Proof.
  intros He Hne d. subst d.
  destruct (check_constraints_outcome set_iter repr_list p req)
    as (m1 & m2 & m3 & m4 & ->).
  cbn [constraints_passed_details]. rewrite details_environment.
  assert (Hr : req_env req = lower e) by (unfold req_env; by rewrite He).
  unfold env_outcome. rewrite Hr.
  apply truthy_lower in Hne. rewrite Hne.
  rewrite <- matched_env_spec.
  assert (Hrow : forall (raw : RawProduct) (emb : list Q) (s : string) (row : Product),
            raw_Deployment_Environment raw = PStr s ->
            preprocess_row raw emb = Some row ->
            Deployment_Environment_Lower row = lower s).
  { intros raw emb s row Hs Hrow. unfold preprocess_row in Hrow.
    rewrite Hs in Hrow.
    destruct (str_lower (fillna_empty (raw_Connectivity raw))) as [c|];
      [|discriminate Hrow].
    cbn in Hrow. by injection Hrow as <-. }
  destruct (matched_env (Deployment_Environment_Lower p) (lower e));
    repeat split; try congruence; try done.
Qed.


(** C1 (amended). With a non-empty set of requested connectivity tokens,
    the connectivity dimension passes exactly when at least one requested
    token has a synonym keyword that is an element of the product's parsed
    connectivity list or occurs in the product's connectivity text, the
    text being non-empty; it fails otherwise. The score holds the
    connectivity weight once for each distinct requested token that
    matches. *)
Theorem connectivity_or_across_tokens (so : SetOrder)
    (p : Product) (req : Requirements) :
  flattened_conn_ids req <> [] ->
  let r := check_constraints so repr_list p req in
  let d := constraints_passed_details r !! "connectivity" in
  let some_token_matches :=
    exists t, t ∈ flattened_conn_ids req /\ conn_token_matches p t in
  (d = Some (Some true) <-> some_token_matches)
  /\ (d = Some (Some false) <-> ~ some_token_matches)
  /\ exists matched : list string,
       NoDup matched
       /\ (forall t, t ∈ matched <->
             t ∈ flattened_conn_ids req /\ conn_token_matches p t)
       /\ score r =
            points (weight "frequency_band") (freq_outcome p req)
            + points (weight "environment") (env_outcome p req)
            + weight "connectivity_option" * Z.of_nat (length matched)
            + points (weight "power_keyword") (power_outcome p req).
Proof.
  intros Hne r d some_token_matches. subst r d.
  destruct (check_constraints_outcome so repr_list p req)
    as (m1 & m2 & m3 & m4 & ->).
  cbn [constraints_passed_details score]. rewrite details_connectivity.
  assert (Hspec : existsb (conn_id_matched p) (user_connectivity_reqs_ids so req)
                  = true <-> some_token_matches).
  { subst some_token_matches. rewrite existsb_elem_of.
    unfold user_connectivity_reqs_ids.
    setoid_rewrite iter_order_elem. by setoid_rewrite conn_id_matched_spec. }
  assert (Hids : user_connectivity_reqs_ids so req <> []).
  { unfold user_connectivity_reqs_ids.
    destruct (flattened_conn_ids req) as [|x l] eqn:E; [done|].
    intros H. assert (x ∈ so (x :: l)) as Hx by (apply iter_order_elem; left).
    rewrite H in Hx. by apply elem_of_nil in Hx. }
  unfold conn_outcome.
  destruct (user_connectivity_reqs_ids so req) as [|t ids] eqn:E; [done|].
  rewrite <- E in *. clear E t ids.
  split; [|split].
  - rewrite <- Hspec. destruct (existsb _ _); split; congruence.
  - rewrite <- Hspec. destruct (existsb _ _); split; try congruence; try done.
  - exists (matched_conn_ids so p req). split; [|split].
    + unfold matched_conn_ids. apply NoDup_filter, iter_order_NoDup.
    + intros t. unfold matched_conn_ids. rewrite list_elem_of_filter.
      unfold user_connectivity_reqs_ids. rewrite iter_order_elem.
      rewrite conn_id_matched_spec. tauto.
    + reflexivity.
Qed.

End ConstraintClaims.

(** ** Sorting and slicing *)

Section SortingFacts.
Context {A : Type} (key : A -> Q).

Lemma insert_desc_perm (x : A) (l : list A) :
  insert_desc key x l ≡ₚ x :: l.
Proof.
  induction l as [|y l IH]; simpl; [done|].
  destruct (Qle_bool (key y) (key x)); [done|].
  rewrite IH. apply perm_swap.
Qed.

Lemma sorted_desc_perm (l : list A) : sorted_desc key l ≡ₚ l.
Proof.
  induction l as [|x l IH]; simpl; [done|].
  by rewrite insert_desc_perm, IH.
Qed.

Lemma sorted_desc_length (l : list A) : length (sorted_desc key l) = length l.
Proof. by rewrite sorted_desc_perm. Qed.

Lemma insert_desc_descending (x : A) (l : list A) :
  descending key l -> descending key (insert_desc key x l).
Proof.
  unfold descending. induction l as [|y l IH]; intros Hs; simpl.
  - by repeat constructor.
  - destruct (Qle_bool (key y) (key x)) eqn:E.
    + apply Qle_bool_iff in E. constructor; [done|].
      inversion Hs as [|? ? Hs' Hall]; subst. constructor; [done|].
      eapply Forall_impl; [exact Hall|]. intros b Hb. simpl in Hb.
      by eapply Qle_trans.
    + assert (key x <= key y)%Q as Hxy.
      { apply Qlt_le_weak, Qnot_le_lt. intros H%Qle_bool_iff. congruence. }
      inversion Hs as [|? ? Hs' Hall]; subst. constructor; [by apply IH|].
      rewrite insert_desc_perm. by constructor.
Qed.

Lemma sorted_desc_descending (l : list A) : descending key (sorted_desc key l).
Proof.
  induction l as [|x l IH]; simpl; [constructor|].
  by apply insert_desc_descending.
Qed.

(** Records with one key keep the order they had. *)
Lemma insert_desc_stable (k : Q) (x : A) (l : list A) :
  filter (fun a => (key a == k)%Q) (insert_desc key x l)
  = filter (fun a => (key a == k)%Q) (x :: l).
Proof.
  induction l as [|y l IH]; simpl; [done|].
  destruct (Qle_bool (key y) (key x)) eqn:E; [done|].
  rewrite (filter_cons _ y), IH, !filter_cons.
  destruct (decide (key x == k)%Q) as [Hx|Hx]; [|done].
  destruct (decide (key y == k)%Q) as [Hy|Hy]; [|done].
  exfalso. assert (Qle_bool (key y) (key x) = true); [|congruence].
  apply Qle_bool_iff. rewrite Hx, Hy. apply Qle_refl.
Qed.

Lemma sorted_desc_stable (k : Q) (l : list A) :
  filter (fun a => (key a == k)%Q) (sorted_desc key l)
  = filter (fun a => (key a == k)%Q) l.
Proof.
  induction l as [|x l IH]; simpl; [done|].
  by rewrite insert_desc_stable, !filter_cons, IH.
Qed.

End SortingFacts.

Lemma slice_to_0 {A} (l : list A) : slice_to 0 l = [].
Proof. reflexivity. Qed.

Lemma slice_to_nil {A} (n : Z) : slice_to n ([] : list A) = [].
Proof. unfold slice_to. destruct (0 <=? n); apply take_nil. Qed.

Lemma slice_to_all {A} (n : Z) (l : list A) :
  Z.of_nat (length l) <= n -> slice_to n l = l.
Proof.
  intros H. unfold slice_to. destruct (0 <=? n) eqn:E; [|lia].
  apply take_ge. lia.
Qed.

Lemma slice_to_length {A} (n : Z) (l : list A) :
  0 <= n -> length (slice_to n l) = Nat.min (Z.to_nat n) (length l).
Proof.
  intros H. unfold slice_to. destruct (0 <=? n) eqn:E; [|lia].
  apply length_take.
Qed.



(** ** The ranking engine *)

Section RecommenderFacts.

Variable set_iter : list string -> list string.
Variable repr_list : list string -> string.
Variable float_mul float_add : Q -> Q -> Q.
Variable float_round : Q -> Z -> Q.
Variable format_2f : Q -> string.
Variable sm : SoftMatcher.

Local Abbreviation score_cands :=
  (score_candidates float_mul float_add float_round format_2f sm).
Local Abbreviation run :=
  (recommend_run set_iter repr_list float_mul float_add float_round format_2f sm).
Local Abbreviation rec :=
  (recommend set_iter repr_list float_mul float_add float_round format_2f sm).
Local Abbreviation survivors := (hard_constraint_filter set_iter repr_list).

Lemma valid_indices_length_from
    (f : nat -> Product * HCResult -> nat * (Product * HCResult))
    (cands : list (Product * HCResult)) :
  (forall i c, snd (f i c) = c) ->
  length (filter (fun ic : nat * (Product * HCResult) => embedding (fst (snd ic)) ≠ [])
            (imap f cands))
  = length (filter (fun emb : list Q => emb ≠ []) (map (fun c => embedding (fst c)) cands)).
Proof.
  revert f. induction cands as [|c cands IH]; intros f Hf; [done|].
  cbn [imap map]. rewrite !filter_cons. rewrite Hf.
  specialize (IH (f ∘ S) (fun i c => Hf (S i) c)).
  destruct (decide (embedding c.1 ≠ [])); simpl; by rewrite IH.
Qed.

Lemma valid_indices_length (cands : list (Product * HCResult)) :
  length (valid_embedding_indices cands)
  = length (filter (fun emb : list Q => emb ≠ []) (map (fun c => embedding (fst c)) cands)).
Proof.
  unfold valid_embedding_indices. rewrite length_map.
  by apply valid_indices_length_from.
Qed.

Lemma assign_similarities_returns (valid : list nat) (sims : list Q) (i : nat)
    (column : list Q) :
  (i + length sims <= length valid)%nat ->
  exists column', assign_similarities valid sims i column = Returned column'
               /\ length column' = length column.
Proof.
  revert i column. induction sims as [|s sims IH]; intros i column Hlen; simpl.
  - by exists column.
  - simpl in Hlen. destruct (valid !! i) as [idx|] eqn:E.
    + destruct (IH (S i) (<[idx := s]> column)) as (c' & -> & Hc'); [lia|].
      exists c'. split; [done|]. by rewrite Hc', length_insert.
    + apply lookup_ge_None in E. lia.
Qed.

Lemma ids_without_similarity (note : string) (cands : list (Product * HCResult)) :
  map product_id (map (without_similarity note) cands)
  = map (fun c => Product_ID (fst c)) cands.
Proof.
  rewrite map_map. apply map_ext. by intros [row hc].
Qed.

Lemma ids_with_similarity (cands : list (Product * HCResult)) (column : list Q) :
  length column = length cands ->
  map product_id
    (zip_with (with_similarity float_mul float_add float_round format_2f) cands column)
  = map (fun c => Product_ID (fst c)) cands.
Proof.
  revert column. induction cands as [|[row hc] cands IH]; intros [|x column] H;
    simpl in *; try done.
  f_equal. apply IH. lia.
Qed.

Lemma score_candidates_returns (cands : list (Product * HCResult)) (req : Requirements) :
  cos_sim_bounded sm ->
  exists data trace,
    score_cands cands req = (Returned data, trace)
    /\ map product_id data = map (fun c => Product_ID (fst c)) cands.
Proof.
  intros Hsim. unfold score_candidates.
  destruct (negb (truthy (strip (build_requirement_query req)))
            || negb (model_loaded sm)).
  { eexists _, _. split; [reflexivity|]. apply ids_without_similarity. }
  destruct (get_embeddings sm [build_requirement_query req]) as [[|q embs]|].
  1, 3: eexists _, _; (split; [reflexivity|]); apply ids_without_similarity.
  set (pe := filter (fun emb : list Q => emb ≠ []) (map (fun c => embedding (fst c)) cands)).
  assert (Hlen : forall sims, (length sims <= length pe)%nat ->
    exists column',
      assign_similarities (valid_embedding_indices cands) sims 0
        (replicate (length cands) (0 : Q)) = Returned column'
      /\ length column' = length cands).
  { intros sims Hs.
    destruct (assign_similarities_returns (valid_embedding_indices cands) sims 0
                (replicate (length cands) (0 : Q))) as (c' & Hc' & Hl).
    - rewrite valid_indices_length. fold pe. lia.
    - exists c'. split; [done|]. by rewrite Hl, length_replicate. }
  destruct pe as [|e pe'] eqn:Epe.
  - destruct (Hlen []) as (c' & Hc' & Hl); [simpl; lia|].
    rewrite Hc'. eexists _, _. split; [reflexivity|].
    by apply ids_with_similarity.
  - destruct (Hlen (calculate_similarity sm q (e :: pe'))) as (c' & Hc' & Hl).
    { unfold calculate_similarity.
      destruct (cos_sim sm q (e :: pe')) as [sims|] eqn:Ec; simpl.
      - by apply Hsim in Ec.
      - lia. }
    rewrite Hc'. eexists _, _. split; [reflexivity|].
    by apply ids_with_similarity.
Qed.

Lemma survivors_nil_of_empty_catalog (req : Requirements) : survivors [] req = [].
Proof. reflexivity. Qed.

Lemma recommend_run_no_survivor (products_df : list Product) (req : Requirements)
    (top_n : Z) :
  survivors products_df req = [] -> run products_df req top_n = (Returned [], []).
Proof.
  intros H. unfold recommend_run. destruct products_df; [done|]. by rewrite H.
Qed.

Lemma recommend_run_survivors (products_df : list Product) (req : Requirements)
    (top_n : Z) :
  survivors products_df req <> [] ->
  run products_df req top_n =
  match score_cands (survivors products_df req) req with
  | (Raised e, trace) => (Raised e, trace)
  | (Returned data, trace) =>
      (Returned (map format_output (slice_to top_n (sorted_desc final_score_key data))),
       trace)
  end.
Proof.
  intros H. unfold recommend_run. destruct products_df as [|p ps]; [done|].
  destruct (survivors (p :: ps) req); [done|]. reflexivity.
Qed.

End RecommenderFacts.

Section RankingClaims.

Variable set_iter : list string -> list string.
Variable repr_list : list string -> string.
Variable float_mul float_add : Q -> Q -> Q.
Variable float_round : Q -> Z -> Q.
Variable format_2f : Q -> string.
Variable sm : SoftMatcher.

Local Abbreviation score_cands :=
  (score_candidates float_mul float_add float_round format_2f sm).
Local Abbreviation run :=
  (recommend_run set_iter repr_list float_mul float_add float_round format_2f sm).
Local Abbreviation rec :=
  (recommend set_iter repr_list float_mul float_add float_round format_2f sm).
Local Abbreviation survivors := (hard_constraint_filter set_iter repr_list).

(** C8. When the catalog is empty or no product passes the filter,
    [recommend] returns the empty list and raises nothing, whatever
    [top_n] is, and the call makes no use of the soft matcher: the query
    is not built and nothing is embedded or compared. *)
Theorem no_survivor_returns_empty (products_df : list Product)
    (req : Requirements) (top_n : Z) :
  products_df = [] \/ survivors products_df req = [] ->
  run products_df req top_n = (Returned [], [])
  /\ forall n : option Z, rec products_df req n = Returned [].
Proof.
  intros H.
  assert (Hs : survivors products_df req = []).
  { destruct H as [->|H]; [reflexivity | exact H]. }
  split.
  - by apply recommend_run_no_survivor.
  - intros n. unfold recommend. by rewrite recommend_run_no_survivor.
Qed.


(** C7 (amended). [recommend] sorts the scored survivors by final score in
    descending order, records with equal scores keeping the order of the
    catalog, and returns the first [top_n] of them; a call that leaves
    [top_n] out behaves as [top_n = 5]; [top_n = 0] gives the empty list
    and raises nothing; a [top_n] that is at least the number of survivors
    gives all of them, ranked. *)
Theorem ranking_and_truncation (products_df : list Product) (req : Requirements) :
  cos_sim_bounded sm ->
  exists data : list RecData,
    map product_id data
      = map (fun c => Product_ID (fst c)) (survivors products_df req)
    /\ sorted_desc final_score_key data ≡ₚ data
    /\ descending final_score_key (sorted_desc final_score_key data)
    /\ (forall k : Q,
          filter (fun d => (final_score_key d == k)%Q) (sorted_desc final_score_key data)
          = filter (fun d => (final_score_key d == k)%Q) data)
    /\ (forall n : Z,
          rec products_df req (Some n)
          = Returned (map format_output
                        (slice_to n (sorted_desc final_score_key data))))
    /\ rec products_df req None = rec products_df req (Some 5)
    /\ rec products_df req (Some 0) = Returned []
    /\ (forall n : Z,
          Z.of_nat (length (survivors products_df req)) <= n ->
          rec products_df req (Some n)
          = Returned (map format_output (sorted_desc final_score_key data))).
Proof.
  intros Hsim.
  assert (H : exists data,
             map product_id data
               = map (fun c => Product_ID (fst c)) (survivors products_df req)
             /\ forall n : Z,
                  rec products_df req (Some n)
                  = Returned (map format_output
                                (slice_to n (sorted_desc final_score_key data)))).
  { destruct (survivors products_df req) as [|c cs] eqn:Hs.
    - exists []. split; [done|]. intros n. unfold recommend.
      rewrite (recommend_run_no_survivor _ _ _ _ _ _ _ _ _ _ Hs). simpl.
      by rewrite slice_to_nil.
    - destruct (score_candidates_returns float_mul float_add float_round
                  format_2f sm (c :: cs) req Hsim) as (data & trace & Hc & Hids).
      exists data. split; [done|]. intros n. unfold recommend.
      rewrite recommend_run_survivors by (rewrite Hs; done).
      rewrite Hs, Hc. reflexivity. }

  destruct H as (data & Hids & Hrec). exists data.
  split_and!.
  - exact Hids.
  - apply sorted_desc_perm.
  - apply sorted_desc_descending.
  - intros k. apply sorted_desc_stable.
  - exact Hrec.
  - reflexivity.
  - rewrite Hrec. reflexivity.
  - intros n Hn. rewrite Hrec. f_equal. f_equal. apply slice_to_all.
    rewrite sorted_desc_length.
    assert (length data = length (survivors products_df req)) as ->; [|done].
    by rewrite <- (length_map product_id), Hids, length_map.
Qed.

End RankingClaims.

(** ** The corpus builders *)

Section NormalForm.

(** *** Strings and their characters *)

Lemma unchars_cons (g : string) (l : list string) :
  unchars (g :: l) = g +:+ unchars l.
Proof. reflexivity. Qed.

Lemma unchars_chars (s : string) : unchars (chars s) = s.
Proof.
  induction s as [|a t IH]; [done|]. cbn [chars].
  destruct (chars t) as [|g l].
  - cbn in IH. by subst t.
  - rewrite unchars_cons in IH.
    destruct (starts_cont g && negb (is_ascii a)).
    + by rewrite unchars_cons, app_cons, IH.
    + by rewrite !unchars_cons, app_cons, app_empty_l, IH.
Qed.

Lemma chars_head (a : ascii) (t : string) :
  exists g l, chars (String a t) = String a g :: l.
Proof.
  cbn [chars]. destruct (chars t) as [|g l]; [by eexists _, _|].
  destruct (starts_cont g && negb (is_ascii a)); by eexists _, _.
Qed.

Lemma starts_cont_chars (s : string) :
  match chars s with g :: _ => starts_cont g | [] => false end = starts_cont s.
Proof.
  destruct s as [|a t]; [done|].
  by destruct (chars_head a t) as (g & l & ->).
Qed.

Lemma is_cont_not_ascii (a : ascii) : is_cont a = true -> is_ascii a = false.
Proof. destruct a as [[] [] [] [] [] [] [] []]; done. Qed.

Lemma segmented_cons (g : string) (l : list string) :
  segmented (g :: l) = true <->
  char_ok g = true /\ segmented l = true
  /\ (match l with h :: _ => starts_cont h | [] => false end = true ->
      single_ascii g = true).
Proof.
  cbn [segmented]. rewrite !andb_true_iff. destruct l as [|h l'].
  - split; [intros [[? ?] _]; by split_and! | intros (? & ? & _); by split_and!].
  - rewrite orb_true_iff, negb_true_iff. split.
    + intros [[? ?] [E|E]]; split_and!; try done. by rewrite E.
    + intros (? & ? & E). split_and!; try done.
      destruct (starts_cont h); [right; by apply E | by left].
Qed.

Lemma segmented_chars (s : string) : segmented (chars s) = true.
Proof.
  induction s as [|a t IH]; [done|]. cbn [chars].
  destruct (chars t) as [|g l]; [done|].
  apply segmented_cons in IH as (Hg & Hl & Hlink).
  destruct (starts_cont g && negb (is_ascii a)) eqn:E.
  - apply andb_true_iff in E as [Hc Ha]. apply segmented_cons. split_and!.
    + destruct g as [|c rest]; [done|]. cbn [starts_cont] in Hc.
      cbn [char_ok all_bytes]. rewrite Ha, Hc. cbn [andb].
      cbn [char_ok] in Hg. destruct rest as [|d rest]; [done|].
      by apply andb_true_iff in Hg as [_ ->].
    + done.
    + intros Hh. specialize (Hlink Hh).
      destruct g as [|c [|d rest]]; try done.
      cbn [starts_cont] in Hc. cbn [single_ascii] in Hlink.
      apply is_cont_not_ascii in Hc. congruence.
  - apply segmented_cons. split_and!; [done | by apply segmented_cons |].
    cbn [single_ascii]. intros Hc. rewrite Hc in E. cbn in E.
    by apply negb_false_iff in E.
Qed.

Lemma chars_continuation (rest s : string) :
  rest <> "" -> all_bytes is_cont rest = true -> starts_cont s = false ->
  chars (rest +:+ s) = rest :: chars s.
Proof.
  induction rest as [|b r IH]; [done|]. intros _ Hall Hs.
  cbn [all_bytes] in Hall. apply andb_true_iff in Hall as [Hb Hr].
  rewrite app_cons. cbn [chars]. destruct r as [|c r].
  - rewrite app_empty_l. pose proof (starts_cont_chars s) as Hh.
    destruct (chars s) as [|g l]; [done|]. by rewrite Hh, Hs.
  - rewrite IH by done.
    cbn [all_bytes] in Hr. apply andb_true_iff in Hr as [Hc _].
    cbn [starts_cont]. by rewrite Hc, (is_cont_not_ascii b Hb).
Qed.

Lemma chars_char_app (g s : string) :
  char_ok g = true -> (starts_cont s = true -> single_ascii g = true) ->
  chars (g +:+ s) = g :: chars s.
Proof.
  intros Hg Hlink. destruct g as [|a rest]; [done|].
  rewrite app_cons. cbn [chars]. destruct rest as [|c rest].
  - rewrite app_empty_l. pose proof (starts_cont_chars s) as Hh.
    destruct (chars s) as [|h l]; [done|]. rewrite Hh.
    destruct (starts_cont s); [|done].
    cbn in Hlink. by rewrite Hlink.
  - cbn [char_ok] in Hg. apply andb_true_iff in Hg as [Ha Hall].
    assert (Hs : starts_cont s = false).
    { destruct (starts_cont s); [|done]. by specialize (Hlink eq_refl). }
    rewrite chars_continuation by done.
    cbn [all_bytes] in Hall. apply andb_true_iff in Hall as [Hc _].
    cbn [starts_cont]. by rewrite Hc, Ha.
Qed.

Lemma starts_cont_unchars (l : list string) :
  Forall (fun g => g <> "") l ->
  starts_cont (unchars l) = match l with h :: _ => starts_cont h | [] => false end.
Proof.
  intros H. destruct H as [|h l Hh _]; [done|].
  rewrite unchars_cons. by destruct h.
Qed.

Lemma segmented_nonempty (l : list string) :
  segmented l = true -> Forall (fun g => g <> "") l.
Proof.
  induction l as [|g l IH]; [done|]. intros (Hg & Hl & _)%segmented_cons.
  constructor; [by destruct g | by apply IH].
Qed.

Lemma chars_unchars (l : list string) :
  segmented l = true -> chars (unchars l) = l.
Proof.
  induction l as [|g l IH]; [done|]. intros H.
  pose proof H as (Hg & Hl & Hlink)%segmented_cons.
  rewrite unchars_cons, chars_char_app, IH; try done.
  rewrite starts_cont_unchars by by apply segmented_nonempty. exact Hlink.
Qed.

(** *** Stripping and collapsing keep a list of characters one *)

Lemma segmented_lstrip (l : list string) :
  segmented l = true -> segmented (lstrip l) = true.
Proof.
  induction l as [|c t IH]; [done|]. intros H. cbn [lstrip].
  destruct (is_space c); [|done].
  apply segmented_cons in H as (_ & H & _). by apply IH.
Qed.

Lemma rstrip_head (l : list string) :
  match rstrip l with h :: _ => Some h | [] => None end = None
  \/ head (rstrip l) = head l.
Proof.
  destruct l as [|c t]; [by left|]. cbn [rstrip].
  destruct (all_space (c :: t)); [by left | by right].
Qed.

Lemma segmented_rstrip (l : list string) :
  segmented l = true -> segmented (rstrip l) = true.
Proof.
  induction l as [|c t IH]; [done|]. intros (Hc & Ht & Hlink)%segmented_cons.
  cbn [rstrip]. destruct (all_space (c :: t)); [done|].
  apply segmented_cons. split_and!; [done | by apply IH |].
  intros Hh. apply Hlink.
  destruct (rstrip_head t) as [E|E].
  - by destruct (rstrip t).
  - destruct (rstrip t) as [|h r]; [done|]. destruct t as [|h' t']; [done|].
    cbn in E. by injection E as <-.
Qed.

Lemma segmented_collapse (b : bool) (l : list string) :
  segmented l = true -> segmented (collapse_ws_from b l) = true.
Proof.
  revert b. induction l as [|c t IH]; intros b; [done|].
  intros (Hc & Ht & Hlink)%segmented_cons. cbn [collapse_ws_from].
  destruct (is_space c).
  - destruct b; [by apply IH|].
    apply segmented_cons. split_and!; [done | by apply IH | done].
  - apply segmented_cons. split_and!; [done | by apply IH |].
    intros Hh. apply Hlink. destruct t as [|d t']; [done|].
    cbn [collapse_ws_from] in Hh. destruct (is_space d); [done | exact Hh].
Qed.

(** *** Stripping and collapsing twice *)

Lemma single_spaced_collapse (b : bool) (l : list string) :
  single_spaced b (collapse_ws_from b l) = true.
Proof.
  revert b. induction l as [|c l IH]; intros b; simpl; [done|].
  destruct (is_space c) eqn:E.
  - destruct b; [apply IH|]. simpl. apply IH.
  - simpl. rewrite E. apply IH.
Qed.

Lemma single_spaced_fixed (b : bool) (l : list string) :
  single_spaced b l = true -> collapse_ws_from b l = l.
Proof.
  revert b. induction l as [|c l IH]; intros b; simpl; [done|].
  destruct (is_space c).
  - intros H. apply andb_true_iff in H as [H Hs].
    apply andb_true_iff in H as [Hb Hc].
    destruct b; [done|]. apply String.eqb_eq in Hc. subst c. by rewrite IH.
  - intros H. by rewrite IH.
Qed.

Lemma single_spaced_lstrip (b : bool) (l : list string) :
  single_spaced b l = true -> single_spaced false (lstrip l) = true.
Proof.
  revert b. induction l as [|c l IH]; intros b; simpl; [done|].
  destruct (is_space c) eqn:E.
  - intros H. apply andb_true_iff in H as [_ Hs]. by eapply IH.
  - intros H. simpl. by rewrite E.
Qed.

Lemma single_spaced_rstrip (b : bool) (l : list string) :
  single_spaced b l = true -> single_spaced b (rstrip l) = true.
Proof.
  revert b. induction l as [|c l IH]; intros b; [done|].
  cbn [rstrip]. destruct (all_space (c :: l)); [done|].
  simpl. destruct (is_space c).
  - intros H. apply andb_true_iff in H as [H Hs]. rewrite H. by apply IH.
  - apply IH.
Qed.

Lemma all_space_rstrip (l : list string) :
  all_space l = false -> all_space (rstrip l) = false.
Proof.
  induction l as [|c l IH]; [done|]. intros H.
  cbn [rstrip]. rewrite H. simpl in *.
  destruct (is_space c); [|done]. simpl in *. by apply IH.
Qed.

Lemma rstrip_idem (l : list string) : rstrip (rstrip l) = rstrip l.
Proof.
  induction l as [|c l IH]; [done|].
  cbn [rstrip]. destruct (all_space (c :: l)) eqn:E; [done|].
  pose proof (all_space_rstrip _ E) as E'. cbn [rstrip] in E'. rewrite E in E'.
  cbn [rstrip]. rewrite E'. by rewrite IH.
Qed.

Lemma lstrip_rstrip_lstrip (l : list string) :
  lstrip (rstrip (lstrip l)) = rstrip (lstrip l).
Proof.
  induction l as [|c l IH]; [done|]. simpl lstrip at 2 3.
  destruct (is_space c) eqn:E; [exact IH|].
  cbn [rstrip]. destruct (all_space (c :: l)); [done|].
  simpl. by rewrite E.
Qed.

Lemma chars_strip (s : string) : chars (strip s) = rstrip (lstrip (chars s)).
Proof.
  unfold strip. apply chars_unchars.
  apply segmented_rstrip, segmented_lstrip, segmented_chars.
Qed.

Lemma chars_collapse_ws (s : string) :
  chars (collapse_ws s) = collapse_ws_from false (chars s).
Proof.
  unfold collapse_ws. apply chars_unchars, segmented_collapse, segmented_chars.
Qed.

Lemma strip_idem (s : string) : strip (strip s) = strip s.
Proof.
  unfold strip at 1. rewrite chars_strip.
  by rewrite lstrip_rstrip_lstrip, rstrip_idem.
Qed.

Lemma collapse_ws_strip_collapse (s : string) :
  collapse_ws (strip (collapse_ws s)) = strip (collapse_ws s).
Proof.
  unfold collapse_ws at 1. rewrite chars_strip, chars_collapse_ws.
  rewrite single_spaced_fixed; [by unfold strip; rewrite chars_collapse_ws|].
  apply single_spaced_rstrip. eapply single_spaced_lstrip.
  apply single_spaced_collapse.
Qed.

Lemma clean_join_normalized (texts : list string) : is_normalized (clean_join texts).
Proof.
  unfold clean_join, is_normalized.
  set (x := join " " _). split_and!.
  - apply lower_lower.
  - apply lower_collapse, collapse_ws_strip_collapse.
  - apply lower_strip, strip_idem.
Qed.

Lemma is_normalized_empty : is_normalized "".
Proof. split_and!; [apply lower_empty_string | reflexivity | reflexivity]. Qed.

End NormalForm.

Lemma astype_str_idem (f : Feature) :
  feature_id_astype_str (feature_id_astype_str f) = feature_id_astype_str f.
Proof. reflexivity. Qed.

Lemma astype_str_strings (features_df : list Feature) :
  feature_ids_are_strings features_df ->
  map feature_id_astype_str features_df = features_df.
Proof.
  induction 1 as [|f l [s Hs] _ IH]; simpl; [done|].
  rewrite IH. f_equal. destruct f as [i n d]. simpl in *. by subst i.
Qed.

Lemma astype_str_map_idem (features_df : list Feature) :
  map feature_id_astype_str (map feature_id_astype_str features_df)
  = map feature_id_astype_str features_df.
Proof. rewrite map_map. apply map_ext. intros f. apply astype_str_idem. Qed.

Lemma build_product_corpus_again (row : option Product)
    (features_df : list Feature) (product_feature_map_df : list ProductFeature) :
  build_product_corpus row
    (snd (build_product_corpus row features_df product_feature_map_df))
    product_feature_map_df
  = (fst (build_product_corpus row features_df product_feature_map_df),
     snd (build_product_corpus row features_df product_feature_map_df)).
Proof.
  destruct (build_product_corpus row features_df product_feature_map_df)
    as [text features_df'] eqn:E. cbn [fst snd].
  unfold build_product_corpus in *. cbv zeta in *.
  destruct row as [row|]; [|by injection E as <- <-].
  destruct features_df as [|f fs]; [by injection E as <- <-|].
  destruct product_feature_map_df as [|m ms]; [by injection E as <- <-|].
  destruct (truthy (py_str (Product_ID row))) eqn:Hp; [|by injection E as <- <-].
  destruct (map map_Feature_ID _) as [|a ids] eqn:Hids; [by injection E as <- <-|].
  injection E as <- <-.
  change (feature_id_astype_str f :: map feature_id_astype_str fs)
    with (map feature_id_astype_str (f :: fs)).
  by rewrite astype_str_map_idem.
Qed.


(** C9 (amended). [build_product_corpus] writes nothing to the product and
    to the associations, and in the features table only the identifier
    column, which it replaces by the string form of each value when the
    product has an associated feature: the names and descriptions are
    kept, and the table is unchanged when its identifiers are strings
    already. A second call on the tables the first one leaves returns the
    same string and changes nothing. The strings both builders return are
    normalized: lower-casing, collapsing whitespace and stripping leave
    them as they are. *)
Theorem corpus_builders_idempotent (row : option Product)
    (features_df : list Feature) (product_feature_map_df : list ProductFeature)
    (req : Requirements) :
  let text := fst (build_product_corpus row features_df product_feature_map_df) in
  let features_df' := snd (build_product_corpus row features_df product_feature_map_df) in
  (features_df' = features_df
   \/ features_df' = map feature_id_astype_str features_df)
  /\ (feature_ids_are_strings features_df -> features_df' = features_df)
  /\ map Feature_Name features_df' = map Feature_Name features_df
  /\ map Feature_Description features_df' = map Feature_Description features_df
  /\ build_product_corpus row features_df' product_feature_map_df
     = (text, features_df')
  /\ is_normalized text
  /\ is_normalized (build_requirement_query req).
Proof.
  intros text features_df'. subst text features_df'.
  split_and!.
  - bpc_cases row features_df product_feature_map_df; auto.
  - intros H. bpc_cases row features_df product_feature_map_df; try done.
    by apply astype_str_strings.
  - bpc_cases row features_df product_feature_map_df; try done.
    change (map Feature_Name (map feature_id_astype_str (f :: fs))
            = map Feature_Name (f :: fs)).
    rewrite map_map. by apply map_ext.
  - bpc_cases row features_df product_feature_map_df; try done.
    change (map Feature_Description (map feature_id_astype_str (f :: fs))
            = map Feature_Description (f :: fs)).
    rewrite map_map. by apply map_ext.
  - apply build_product_corpus_again.
  - bpc_cases row features_df product_feature_map_df;
      try apply clean_join_normalized.
    apply is_normalized_empty.
  - apply clean_join_normalized.
Qed.

End Properties.

(** ** The claims at the sample data *)

Section AtSamples.
#[local] Existing Instance ascii_case.

(** C7, the default: on six products that all pass, a call that leaves
    [top_n] out returns five records, not the three of [top_n = 3]. *)
Lemma default_top_n_is_not_three :
  ids_of (recommend_degraded set_first catalog_six req_none None)
    = [PStr "N1"; PStr "N2"; PStr "N3"; PStr "N4"; PStr "N5"]
  /\ ids_of (recommend_degraded set_first catalog_six req_none (Some 3))
    = [PStr "N1"; PStr "N2"; PStr "N3"].
Proof. split; vm_compute; reflexivity. Qed.

(** C4, at one product that matches two power labels: the line of the
    power requirement lists the two phrases in the order the set yields
    them, so two processes that order the set differently return
    different explanations for the same catalog and requirement. *)
Lemma power_explanation_follows_set_order :
  explanations_of (recommend_degraded set_first [p_gateway] req_two_powers (Some 3))
    = [["Frequency band not specified by user.";
        "Deployment environment not specified by user.";
        "Connectivity not specified by user.";
        "Power requirement(s) met: Found 'dc power' (for DC Power), 'ac power' (for AC Power)";
        "Text Similarity: 0.00 (Query empty or model issue)"]]
  /\ explanations_of (recommend_degraded set_last [p_gateway] req_two_powers (Some 3))
    = [["Frequency band not specified by user.";
        "Deployment environment not specified by user.";
        "Connectivity not specified by user.";
        "Power requirement(s) met: Found 'ac power' (for AC Power), 'dc power' (for DC Power)";
        "Text Similarity: 0.00 (Query empty or model issue)"]].
Proof. split; vm_compute; reflexivity. Qed.

(** C9, the features table: with numeric identifiers, a call for a
    product that has an associated feature returns a table whose
    identifier is the string "7", not the number 7 it was given. *)
Lemma corpus_rewrites_feature_ids :
  snd (build_product_corpus (Some p_gateway) features_numeric mapping_numeric)
    = [{| Feature_ID := PStr "7"; Feature_Name := PStr "GPS";
          Feature_Description := PStr "Built-in  GPS receiver" |}]
  /\ snd (build_product_corpus (Some p_gateway) features_numeric mapping_numeric)
     <> features_numeric.
Proof. split; [vm_compute; reflexivity | vm_compute; discriminate]. Qed.


(** C1, the claim as first worded: the token [""] has the keyword [""],
    which occurs in the empty connectivity text of the product, and yet
    the dimension fails, because an empty text is never searched. *)
Lemma connectivity_empty_text_counterexample :
  flattened_conn_ids req_empty_token <> []
  /\ (exists t kw, t ∈ flattened_conn_ids req_empty_token
        /\ kw ∈ keywords_to_check t
        /\ (kw ∈ Connectivity_List p_bare
            \/ substring kw (Connectivity_Lower_Text p_bare)))
  /\ constraints_passed_details
       (check_constraints set_first repr_simple p_bare req_empty_token)
       !! "connectivity" = Some (Some false).
Proof.
  split; [vm_compute; discriminate|]. split.
  - exists "", "". split; [vm_compute; left|]. split; [vm_compute; left|].
    right. by exists "", "".
  - vm_compute. reflexivity.
Qed.

Lemma connectivity_or_across_tokens_witness :
  flattened_conn_ids req_full <> []
  /\ ((constraints_passed_details
         (check_constraints set_first repr_simple p_gateway req_full)
         !! "connectivity" = Some (Some true) <->
       exists t, t ∈ flattened_conn_ids req_full /\ conn_token_matches p_gateway t)
      /\ (constraints_passed_details
            (check_constraints set_first repr_simple p_gateway req_full)
            !! "connectivity" = Some (Some false) <->
          ~ exists t, t ∈ flattened_conn_ids req_full /\ conn_token_matches p_gateway t)
      /\ exists matched : list string,
           NoDup matched
           /\ (forall t, t ∈ matched <->
                 t ∈ flattened_conn_ids req_full /\ conn_token_matches p_gateway t)
           /\ score (check_constraints set_first repr_simple p_gateway req_full) =
                points (weight "frequency_band") (freq_outcome p_gateway req_full)
                + points (weight "environment") (env_outcome p_gateway req_full)
                + weight "connectivity_option" * Z.of_nat (length matched)
                + points (weight "power_keyword") (power_outcome p_gateway req_full)).
Proof.
  split; [vm_compute; discriminate|].
  apply (connectivity_or_across_tokens repr_simple set_first p_gateway req_full).
  vm_compute; discriminate.
Defined.


Lemma environment_compatibility_witness :
  deployment req_full ≫= environment = Some "Both"
  /\ "Both" <> ""
  /\ ((constraints_passed_details
         (check_constraints set_first repr_simple p_gateway req_full)
         !! "environment" = Some (Some true) <->
       env_compatible (Deployment_Environment_Lower p_gateway) (lower "Both"))
      /\ (constraints_passed_details
            (check_constraints set_first repr_simple p_gateway req_full)
            !! "environment" = Some (Some false) <->
          ~ env_compatible (Deployment_Environment_Lower p_gateway) (lower "Both"))
      /\ (forall (raw : RawProduct) (emb : list Q) (s : string) (row : Product),
            raw_Deployment_Environment raw = PStr s ->
            preprocess_row raw emb = Some row ->
            Deployment_Environment_Lower row = lower s)).
Proof.
  split; [reflexivity|]. split; [discriminate|].
  apply (environment_compatibility repr_simple set_first p_gateway req_full "Both");
    [reflexivity | discriminate].
Defined.

Lemma absent_requirement_passes_witness :
  region req_none ≫= frequencyBand = None
  /\ deployment req_none ≫= environment = None
  /\ connectivity req_none ≫= elaborate = None
  /\ power req_none = None
  /\ overall_pass (check_constraints set_first repr_simple p_gateway req_none) = true
  /\ score (check_constraints set_first repr_simple p_gateway req_none) = 0
  /\ constraints_passed_details
       (check_constraints set_first repr_simple p_gateway req_none)
       !! "frequency_band" = Some None
  /\ constraints_passed_details
       (check_constraints set_first repr_simple p_gateway req_none)
       !! "environment" = Some None
  /\ constraints_passed_details
       (check_constraints set_first repr_simple p_gateway req_none)
       !! "connectivity" = Some None
  /\ constraints_passed_details
       (check_constraints set_first repr_simple p_gateway req_none)
       !! "power" = Some None.
Proof.
  do 4 (split; [reflexivity|]).
  apply (absent_requirement_passes repr_simple set_first p_gateway req_none);
    reflexivity.
Defined.

Lemma no_survivor_returns_empty_witness :
  ([p_gateway; p_bare] = []
   \/ hard_constraint_filter set_first repr_simple [p_gateway; p_bare] req_as923 = [])
  /\ recommend_run set_first repr_simple Qmult Qplus (fun q _ => q) (fun _ => "")
       sm_unavailable [p_gateway; p_bare] req_as923 3 = (Returned [], [])
  /\ forall n : option Z,
       recommend set_first repr_simple Qmult Qplus (fun q _ => q) (fun _ => "")
         sm_unavailable [p_gateway; p_bare] req_as923 n = Returned [].
Proof.
  split; [right; vm_compute; reflexivity|].
  apply (no_survivor_returns_empty set_first repr_simple Qmult Qplus
           (fun q _ => q) (fun _ => "") sm_unavailable [p_gateway; p_bare] req_as923 3).
  right. vm_compute. reflexivity.
Defined.


Lemma ranking_and_truncation_witness :
  cos_sim_bounded sm_unavailable
  /\ exists data : list RecData,
       map product_id data
         = map (fun c => Product_ID (fst c))
             (hard_constraint_filter set_first repr_simple catalog_six req_none)
       /\ sorted_desc final_score_key data ≡ₚ data
       /\ descending final_score_key (sorted_desc final_score_key data)
       /\ (forall k : Q,
             filter (fun d => (final_score_key d == k)%Q)
               (sorted_desc final_score_key data)
             = filter (fun d => (final_score_key d == k)%Q) data)
       /\ (forall n : Z,
             recommend_degraded set_first catalog_six req_none (Some n)
             = Returned (map format_output
                           (slice_to n (sorted_desc final_score_key data))))
       /\ recommend_degraded set_first catalog_six req_none None
          = recommend_degraded set_first catalog_six req_none (Some 5)
       /\ recommend_degraded set_first catalog_six req_none (Some 0) = Returned []
       /\ (forall n : Z,
             Z.of_nat (length (hard_constraint_filter set_first repr_simple
                                 catalog_six req_none)) <= n ->
             recommend_degraded set_first catalog_six req_none (Some n)
             = Returned (map format_output (sorted_desc final_score_key data))).
Proof.
  split; [intros q embs sims H; discriminate H|].
  apply (ranking_and_truncation set_first repr_simple Qmult Qplus
           (fun q _ => q) (fun _ => "") sm_unavailable catalog_six req_none).
  intros q embs sims H; discriminate H.
Defined.

(** The sample rows are the rows the loader makes of the sample cells. *)
Example sample_rows_loaded :
  preprocess_row raw_gateway [] = Some p_gateway
  /\ preprocess_row raw_bare [] = Some p_bare
  /\ forall id emb, preprocess_row (raw_numbered id) emb = Some (p_numbered id emb).
Proof. split_and!; reflexivity. Qed.

(** Section 8 of the specification, on the gateway product. *)

Example frequency_band_matching :
  freq_outcome p_gateway req_full = Some true
  /\ freq_outcome p_gateway req_as923 = Some false.
Proof. split; vm_compute; reflexivity. Qed.

Example full_requirement_on_gateway :
  overall_pass (check_constraints set_first repr_simple p_gateway req_full) = true
  /\ score (check_constraints set_first repr_simple p_gateway req_full) = 13
  /\ explanation (check_constraints set_first repr_simple p_gateway req_full)
     = ["Matched frequency band: US915";
        "Matched environment: User 'Both', Product 'Outdoor'";
        "Matched connectivity options: ETHERNET, LORAWAN";
        "Power requirement(s) met: Found 'dc power' (for DC Power), 'ac power' (for AC Power)"].
Proof. split_and!; vm_compute; reflexivity. Qed.

Example two_power_labels_score_once :
  score (check_constraints set_first repr_simple p_gateway req_two_powers) = 1.
Proof. vm_compute. reflexivity. Qed.

Example word_boundary_rejects_infix :
  re_search_word "ac" "back" = false /\ contains "ac" "back" = true
  /\ re_search_word "ac power" "dc power and ac power input" = true.
Proof. split_and!; reflexivity. Qed.

Example connectivity_or_example :
  conn_outcome set_first p_gateway req_full = Some true
  /\ conn_outcome set_first p_gateway req_ble_wifi = Some false.
Proof. split; vm_compute; reflexivity. Qed.

Example requirement_query_of_nothing : build_requirement_query req_none = "".
Proof. reflexivity. Qed.


End AtSamples.

(** * Further properties *)

Section FurtherProperties.
Context {UC : Unicode}.

(** ** The constraint evaluator, dimension by dimension *)

Lemma split_strip_lower_elem (v : pyval) (x : string) :
  x ∈ split_strip_lower v <->
  exists field, field ∈ split_comma (py_str v)
    /\ strip field <> "" /\ x = lower (strip field).
Proof.
  unfold split_strip_lower.
  change (map (fun x0 => lower (strip x0))) with (fmap (M := list) (fun x0 => lower (strip x0))).
  rewrite list_elem_of_fmap. split.
  - intros (field & -> & Hin). apply list_elem_of_filter in Hin as [Ht Hin].
    exists field. split_and!; [done| |done]. intros E. rewrite E in Ht. done.
  - intros (field & Hin & Hne & ->). exists field. split; [done|].
    apply list_elem_of_filter. split; [|done]. by destruct (strip field).
Qed.

(** What a row the loader made holds. *)
Lemma preprocess_row_Some (raw : RawProduct) (emb : list Q) (row : Product) :
  preprocess_row raw emb = Some row ->
  exists c e,
    fillna_empty (raw_Connectivity raw) = PStr c
    /\ fillna_empty (raw_Deployment_Environment raw) = PStr e
    /\ row =
       {| Product_ID := PStr (py_str (raw_Product_ID raw));
          Product_Name := py_str (fillna_empty (raw_Product_Name raw));
          Description_And_Application :=
            fillna_empty (raw_Description_And_Application raw);
          Notes := fillna_empty (raw_Notes raw);
          Connectivity := PStr c;
          Region_Support_List :=
            split_strip_lower (fillna_empty (raw_Region_Support raw));
          Connectivity_Lower_Text := lower c;
          Connectivity_List := split_strip_lower (PStr c);
          Deployment_Environment_Lower := lower e;
          embedding := emb |}.
Proof.
  unfold preprocess_row. intros H.
  destruct (fillna_empty (raw_Connectivity raw)) as [|z|c]; try discriminate H.
  destruct (fillna_empty (raw_Deployment_Environment raw)) as [|z|e];
    try discriminate H.
  cbn in H. injection H as <-. by exists c, e.
Qed.

(** Frequency band. When the requirement names a band, the dimension
    passes exactly when the lower-cased band is an element of the
    product's region list, and fails otherwise; for a row the loader
    made, that is when some comma-separated field of the Region Support
    cell, stripped and lower-cased, equals the lower-cased band. *)
Theorem frequency_band_rule (set_iter : list string -> list string)
    (repr_list : list string -> string) (p : Product) (req : Requirements)
    (b : string) :
  region req ≫= frequencyBand = Some b ->
  b <> "" ->
  (constraints_passed_details (check_constraints set_iter repr_list p req)
     !! "frequency_band" = Some (Some true) <-> lower b ∈ Region_Support_List p)
  /\ (constraints_passed_details (check_constraints set_iter repr_list p req)
        !! "frequency_band" = Some (Some false) <-> lower b ∉ Region_Support_List p)
  /\ (forall (raw : RawProduct) (emb : list Q) (row : Product),
        preprocess_row raw emb = Some row ->
        lower b ∈ Region_Support_List row <->
        exists field,
          field ∈ split_comma (py_str (fillna_empty (raw_Region_Support raw)))
          /\ strip field <> "" /\ lower (strip field) = lower b).
Proof.
  intros Hb Hne.
  destruct (check_constraints_outcome set_iter repr_list p req)
    as (m1 & m2 & m3 & m4 & ->).
  cbn [constraints_passed_details]. rewrite details_frequency_band.
  assert (Hr : req_freq_band req = lower b) by (unfold req_freq_band; by rewrite Hb).
  unfold freq_outcome. rewrite Hr.
  apply truthy_lower in Hne. rewrite Hne. split_and!.
  - case_bool_decide; split; congruence.
  - case_bool_decide; split; try congruence; done.
  - intros raw emb row (c & e & _ & _ & ->)%preprocess_row_Some.
    cbn [Region_Support_List].
    rewrite split_strip_lower_elem. split; intros (f & H1 & H2 & H3); eauto.
Qed.

Lemma set_order_length (so : SetOrder) (l : list string) :
  length (so l) = length (remove_dups l).
Proof.
  apply Permutation_length, list.NoDup_Permutation.
  - exact (iter_order_NoDup so l).
  - apply NoDup_remove_dups.
  - intros x. by rewrite iter_order_elem, elem_of_remove_dups.
Qed.

(** The rule score is 5 for a matched band, plus 3 for a matched
    environment, plus 2 for each distinct requested token that matches,
    plus 1 for a matched power requirement; a dimension that fails adds
    nothing and does not stop the following ones. The score lies between 0
    and 9 plus twice the number of distinct requested tokens, and the
    product passes exactly when no dimension has failed. *)
Theorem rule_score_formula (so : SetOrder) (repr_list : list string -> string)
    (p : Product) (req : Requirements) :
  score (check_constraints so repr_list p req)
    = points 5 (freq_outcome p req) + points 3 (env_outcome p req)
      + 2 * Z.of_nat (length (matched_conn_ids so p req))
      + points 1 (power_outcome p req)
  /\ 0 <= score (check_constraints so repr_list p req)
       <= 9 + 2 * Z.of_nat (length (remove_dups (flattened_conn_ids req)))
  /\ (overall_pass (check_constraints so repr_list p req) = true <->
      freq_outcome p req <> Some false /\ env_outcome p req <> Some false
      /\ conn_outcome so p req <> Some false /\ power_outcome p req <> Some false).
Proof.
  destruct (check_constraints_outcome so repr_list p req)
    as (m1 & m2 & m3 & m4 & ->).
  cbn [score overall_pass]. unfold conn_points.
  rewrite weight_frequency_band, weight_environment, weight_connectivity_option,
    weight_power_keyword.
  assert (Hlen : (length (matched_conn_ids so p req)
                  <= length (remove_dups (flattened_conn_ids req)))%nat).
  { unfold matched_conn_ids, user_connectivity_reqs_ids.
    rewrite <- (set_order_length so). apply length_filter. }
  split_and!; [done | | |].
  - destruct (freq_outcome p req) as [[]|], (env_outcome p req) as [[]|],
      (power_outcome p req) as [[]|]; cbn [points]; lia.
  - destruct (freq_outcome p req) as [[]|], (env_outcome p req) as [[]|],
      (power_outcome p req) as [[]|]; cbn [points]; lia.
  - destruct (freq_outcome p req) as [[]|], (env_outcome p req) as [[]|],
      (conn_outcome so p req) as [[]|], (power_outcome p req) as [[]|];
      split; try done; intros (H1 & H2 & H3 & H4); congruence.
Qed.

(** A product without connectivity data (an empty list and an empty text,
    which is what the loader makes of a blank cell) fails every
    requirement that requests at least one connectivity token. *)
Theorem blank_connectivity_fails (so : SetOrder) (repr_list : list string -> string)
    (p : Product) (req : Requirements) :
  Connectivity_List p = [] ->
  Connectivity_Lower_Text p = "" ->
  flattened_conn_ids req <> [] ->
  constraints_passed_details (check_constraints so repr_list p req)
    !! "connectivity" = Some (Some false)
  /\ overall_pass (check_constraints so repr_list p req) = false
  /\ (forall (raw : RawProduct) (emb : list Q) (row : Product),
        raw_Connectivity raw = PNaN \/ raw_Connectivity raw = PStr "" ->
        preprocess_row raw emb = Some row ->
        Connectivity_List row = [] /\ Connectivity_Lower_Text row = "").
Proof.
  intros Hl Ht Hne.
  assert (Hco : conn_outcome so p req = Some false).
  { unfold conn_outcome.
    destruct (user_connectivity_reqs_ids so req) as [|t ids] eqn:E.
    - destruct (flattened_conn_ids req) as [|x l] eqn:Ef; [done|].
      assert (x ∈ user_connectivity_reqs_ids so req) as Hx.
      { unfold user_connectivity_reqs_ids. rewrite Ef. apply iter_order_elem. left. }
      rewrite E in Hx. by apply elem_of_nil in Hx.
    - f_equal. apply not_true_is_false. intros (t' & _ & H)%existsb_elem_of.
      apply conn_id_matched_spec in H as (kw & _ & [H|[H _]]).
      + rewrite Hl in H. by apply elem_of_nil in H.
      + done. }
  destruct (check_constraints_outcome so repr_list p req)
    as (m1 & m2 & m3 & m4 & ->).
  cbn [constraints_passed_details overall_pass].
  rewrite details_connectivity, Hco. split_and!; [done | |].
  - by destruct (power_outcome p req) as [[]|].
  - intros raw emb row H (c & e & Hc & _ & ->)%preprocess_row_Some.
    assert (c = "") as ->.
    { destruct H as [H | H]; rewrite H in Hc; by injection Hc as <-. }
    cbn [Connectivity_List Connectivity_Lower_Text].
    split; [reflexivity | apply lower_empty_string].
Qed.

(** ** The order of a set and the result of an evaluation *)

Lemma insert_str_perm (x : string) (l : list string) : insert_str x l ≡ₚ x :: l.
Proof.
  induction l as [|y l IH]; simpl; [done|].
  destruct (String.leb x y); [done|]. rewrite IH. apply perm_swap.
Qed.

Lemma sorted_strs_perm (l : list string) : sorted_strs l ≡ₚ l.
Proof.
  induction l as [|x l IH]; simpl; [done|]. by rewrite insert_str_perm, IH.
Qed.

Lemma insert_str_sorted (x : string) (l : list string) :
  StronglySorted String.le l -> StronglySorted String.le (insert_str x l).
Proof.
  induction l as [|y l IH]; intros Hs; simpl.
  - by repeat constructor.
  - destruct (String.leb x y) eqn:E.
    + assert (String.le x y) as Hxy by (unfold String.le; by rewrite E).
      constructor; [done|]. inversion Hs as [|? ? Hs' Hall]; subst.
      constructor; [done|]. eapply Forall_impl; [exact Hall|].
      intros z Hz. by etrans.
    + assert (String.le y x) as Hyx.
      { destruct (total String.le x y) as [H|H]; [|done].
        unfold String.le in H. by rewrite E in H. }
      inversion Hs as [|? ? Hs' Hall]; subst. constructor; [by apply IH|].
      rewrite insert_str_perm. by constructor.
Qed.

Lemma sorted_strs_sorted (l : list string) : StronglySorted String.le (sorted_strs l).
Proof.
  induction l as [|x l IH]; simpl; [constructor|]. by apply insert_str_sorted.
Qed.


Lemma set_order_perm (so1 so2 : SetOrder) (l1 l2 : list string) :
  (forall x, x ∈ l1 <-> x ∈ l2) -> so1 l1 ≡ₚ so2 l2.
Proof.
  intros H. apply list.NoDup_Permutation.
  - exact (iter_order_NoDup so1 l1).
  - exact (iter_order_NoDup so2 l2).
  - intros x. by rewrite !iter_order_elem.
Qed.

Lemma existsb_perm {A} (f : A -> bool) (l1 l2 : list A) :
  l1 ≡ₚ l2 -> existsb f l1 = existsb f l2.
Proof.
  intros H. destruct (existsb f l2) eqn:E.
  - apply existsb_elem_of in E as (x & Hx & Hf). apply existsb_elem_of.
    exists x. by rewrite H.
  - apply not_true_is_false. intros (x & Hx & Hf)%existsb_elem_of.
    rewrite H in Hx. assert (existsb f l2 = true); [|congruence].
    apply existsb_elem_of. eauto.
Qed.

Lemma conn_outcome_set_order (so1 so2 : SetOrder) (p : Product) (req : Requirements) :
  conn_outcome so1 p req = conn_outcome so2 p req.
Proof.
  unfold conn_outcome, user_connectivity_reqs_ids.
  pose proof (set_order_perm so1 so2 (flattened_conn_ids req)
                (flattened_conn_ids req) (fun x => reflexivity _)) as Hp.
  destruct (so1 (flattened_conn_ids req)) as [|x l] eqn:E1,
           (so2 (flattened_conn_ids req)) as [|y k] eqn:E2; try done.
  - apply Permutation_length in Hp. done.
  - apply Permutation_length in Hp. done.
  - f_equal. by apply existsb_perm.
Qed.

Lemma matched_conn_ids_set_order (so1 so2 : SetOrder) (p : Product)
    (req : Requirements) :
  matched_conn_ids so1 p req ≡ₚ matched_conn_ids so2 p req.
Proof.
  unfold matched_conn_ids, user_connectivity_reqs_ids.
  by rewrite (set_order_perm so1 so2 (flattened_conn_ids req)
                (flattened_conn_ids req) (fun x => reflexivity _)).
Qed.

Lemma check_connectivity_explanation (set_iter : list string -> list string)
    (p : Product) (req : Requirements) (st : HCResult) :
  explanation (check_connectivity set_iter p req st)
  = explanation st ++ [conn_message set_iter p req].
Proof.
  unfold check_connectivity, conn_message, matched_conn_ids.
  destruct (user_connectivity_reqs_ids set_iter req) as [|t ids] eqn:Hids; [done|].
  unfold conn_loop. rewrite conn_loop_from, orb_false_l, app_nil_l.
  by destruct (existsb (conn_id_matched p) (t :: ids)).
Qed.

Lemma check_power_explanation (set_iter : list string -> list string)
    (p : Product) (req : Requirements) (st : HCResult) :
  exists msg, explanation (check_power set_iter p req st) = explanation st ++ [msg].
Proof.
  destruct (check_power_outcome set_iter (fun _ => "") p req st) as [msg ->].
  by exists msg.
Qed.

Lemma explanation_before_connectivity (repr_list : list string -> string)
    (p : Product) (req : Requirements) :
  length (explanation (check_environment p req
                         (check_frequency_band repr_list p req initial_result)))
  = 2%nat.
Proof.
  destruct (check_frequency_band_outcome repr_list p req initial_result) as [m1 ->].
  match goal with |- context [check_environment _ _ ?st] =>
    destruct (check_environment_outcome p req st) as [m2 ->] end.
  reflexivity.
Qed.

(** The first three lines of the explanation; the fourth is the line of
    the power block. *)
Lemma explanation_lines (set_iter : list string -> list string)
    (repr_list : list string -> string) (p : Product) (req : Requirements) :
  exists m1 m2 m4,
    explanation (check_environment p req
                   (check_frequency_band repr_list p req initial_result)) = [m1; m2]
    /\ explanation (check_constraints set_iter repr_list p req)
       = [m1; m2; conn_message set_iter p req; m4].
Proof.
  unfold check_constraints.
  destruct (check_power_explanation set_iter p req
              (check_connectivity set_iter p req
                 (check_environment p req
                    (check_frequency_band repr_list p req initial_result))))
    as [m4 ->].
  rewrite check_connectivity_explanation.
  pose proof (explanation_before_connectivity repr_list p req) as Hlen.
  destruct (explanation _) as [|m1 [|m2 [|? ?]]]; try done.
  by exists m1, m2, m4.
Qed.

Lemma check_constraints_set_order (so1 so2 : SetOrder)
    (repr_list : list string -> string) (p : Product) (req : Requirements) :
  overall_pass (check_constraints so1 repr_list p req)
    = overall_pass (check_constraints so2 repr_list p req)
  /\ score (check_constraints so1 repr_list p req)
     = score (check_constraints so2 repr_list p req)
  /\ constraints_passed_details (check_constraints so1 repr_list p req)
     = constraints_passed_details (check_constraints so2 repr_list p req).
Proof.
  destruct (check_constraints_outcome so1 repr_list p req)
    as (m1 & m2 & m3 & m4 & ->).
  destruct (check_constraints_outcome so2 repr_list p req)
    as (n1 & n2 & n3 & n4 & ->).
  cbn [overall_pass score constraints_passed_details].
  rewrite (conn_outcome_set_order so1 so2).
  assert (conn_points so1 p req = conn_points so2 p req) as ->.
  { unfold conn_points. by rewrite (matched_conn_ids_set_order so1 so2). }
  by split_and!.
Qed.


(** When the connectivity dimension passes, its line lists the matched
    tokens in upper case, each once, in ascending order. *)
Theorem connectivity_line_sorted (so : SetOrder) (repr_list : list string -> string)
    (p : Product) (req : Requirements) :
  constraints_passed_details (check_constraints so repr_list p req)
    !! "connectivity" = Some (Some true) ->
  exists tokens : list string,
    explanation (check_constraints so repr_list p req) !! 2%nat
      = Some ("Matched connectivity options: " +:+ join ", " tokens)
    /\ StronglySorted String.le tokens
    /\ NoDup tokens
    /\ (forall x, x ∈ tokens <->
          exists t, t ∈ flattened_conn_ids req /\ conn_token_matches p t
                    /\ x = upper t).
Proof.
  intros Hd.
  destruct (explanation_lines so repr_list p req) as (a1 & a2 & a4 & _ & Ha).
  rewrite Ha. clear Ha.
  destruct (check_constraints_outcome so repr_list p req)
    as (m1 & m2 & m3 & m4 & Hr).
  rewrite Hr in Hd. cbn [constraints_passed_details] in Hd.
  rewrite details_connectivity in Hd. apply (inj Some) in Hd.
  exists (sorted_strs (so (map upper (matched_conn_ids so p req)))).
  split_and!.
  - cbn. f_equal. unfold conn_message. unfold conn_outcome in Hd.
    destruct (user_connectivity_reqs_ids so req) as [|x l]; [discriminate Hd|].
    apply (inj Some) in Hd. by rewrite Hd.
  - apply sorted_strs_sorted.
  - rewrite sorted_strs_perm. exact (iter_order_NoDup so _).
  - intros x. rewrite sorted_strs_perm, iter_order_elem.
    change (map upper) with (fmap (M := list) upper).
    rewrite list_elem_of_fmap. unfold matched_conn_ids.
    setoid_rewrite list_elem_of_filter.
    unfold user_connectivity_reqs_ids. setoid_rewrite iter_order_elem.
    setoid_rewrite conn_id_matched_spec. split.
    + intros (t & -> & Hm & Hin). exists t. by split_and!.
    + intros (t & Hin & Hm & ->). exists t. by split_and!.
Qed.

(** ** The loader *)

Lemma lower_nonempty (s : string) : s <> "" -> lower s <> "".
Proof. intros H E. by apply lower_empty in E. Qed.

(** After preprocessing, every entry of the region list and of the
    connectivity list of a row is a non-empty, lower-case token without
    surrounding whitespace, the connectivity text and the environment are
    lower-case, and the identifier is a string. *)
Theorem preprocessed_row_normal (raw : RawProduct) (emb : list Q) (p : Product) :
  preprocess_row raw emb = Some p ->
  (forall x, x ∈ Region_Support_List p \/ x ∈ Connectivity_List p ->
     x <> "" /\ lower x = x /\ strip x = x)
  /\ lower (Connectivity_Lower_Text p) = Connectivity_Lower_Text p
  /\ lower (Deployment_Environment_Lower p) = Deployment_Environment_Lower p
  /\ (exists s, Product_ID p = PStr s)
  /\ embedding p = emb.
Proof.
  intros (c & e & _ & _ & ->)%preprocess_row_Some.
  assert (Htok : forall v x, x ∈ split_strip_lower v ->
            x <> "" /\ lower x = x /\ strip x = x).
  { intros v x (field & _ & Hne & ->)%split_strip_lower_elem. split_and!.
    - by apply lower_nonempty.
    - apply lower_lower.
    - apply lower_strip, strip_idem. }
  cbn [Region_Support_List Connectivity_List
       Connectivity_Lower_Text Deployment_Environment_Lower Product_ID embedding].
  split_and!; [|apply lower_lower|apply lower_lower|by eexists|done].
  intros x [H|H]; by eapply Htok.
Qed.

(** Splitting at commas. *)

Lemma rev_app_rev_app (t a b : string) :
  String.rev_app (String.rev_app t a) b = String.rev_app a (t +:+ b).
Proof.
  revert a b. induction t as [|c t IH]; intros a b; [done|].
  cbn [String.rev_app]. rewrite IH. by rewrite app_cons.
Qed.

Lemma rev_rev_app (t : string) : String.rev (String.rev_app t "") = t.
Proof. unfold String.rev. rewrite rev_app_rev_app. simpl. apply app_empty_r. Qed.

Lemma contains_comma_cons (c : ascii) (t : string) :
  contains "," (String c t) = false ->
  Ascii.eqb c "," = false /\ contains "," t = false.
Proof.
  change (contains "," (String c t))
    with ((if Ascii.eqb "," c then true else false) || contains "," t).
  rewrite (Ascii.eqb_sym "," c). destruct (Ascii.eqb c ","); [done|].
  simpl. auto.
Qed.

Lemma split_comma_from_field (cur t s : string) :
  contains "," t = false ->
  split_comma_from cur (t +:+ s) = split_comma_from (String.rev_app t cur) s.
Proof.
  revert cur. induction t as [|c t IH]; intros cur Hc; [done|].
  apply contains_comma_cons in Hc as [Hc Ht].
  rewrite app_cons. cbn [split_comma_from String.rev_app]. rewrite Hc. by apply IH.
Qed.

Lemma split_comma_from_comma (cur s : string) :
  split_comma_from cur (String "," s) = String.rev cur :: split_comma_from "" s.
Proof. reflexivity. Qed.

Lemma split_comma_from_space (cur s : string) :
  split_comma_from cur (String " " s) = split_comma_from (String " " cur) s.
Proof. reflexivity. Qed.

Lemma strip_space_cons (t : string) : strip (String " " t) = strip t.
Proof.
  unfold strip. cbn [chars]. destruct (chars t) as [|g l]; [reflexivity|].
  replace (starts_cont g && negb (is_ascii " ")) with false
    by (by destruct (starts_cont g)).
  reflexivity.
Qed.

Lemma split_comma_join (l : list string) :
  Forall (fun t => contains "," t = false) l ->
  l <> [] ->
  exists first rest,
    l = first :: rest
    /\ split_comma (join ", " l) = first :: map (fun t => String " " t) rest.
Proof.
  intros Hall Hne. destruct l as [|first rest]; [done|]. clear Hne.
  exists first, rest. split; [done|]. unfold split_comma.
  assert (Hgen : forall cur first,
    contains "," first = false ->
    Forall (fun t => contains "," t = false) rest ->
    split_comma_from cur (join ", " (first :: rest))
    = String.rev (String.rev_app first cur) :: map (fun t => String " " t) rest).
  { clear Hall first. induction rest as [|t rest IH]; intros cur first Hf Hr.
    - cbn [join map]. rewrite <- (app_empty_r first) at 1.
      by rewrite split_comma_from_field.
    - change (join ", " (first :: t :: rest))
        with (first +:+ ", " +:+ join ", " (t :: rest)).
      rewrite split_comma_from_field by done.
      change (", " +:+ join ", " (t :: rest))
        with (String "," (String " " (join ", " (t :: rest)))).
      rewrite split_comma_from_comma, split_comma_from_space.
      f_equal. inversion Hr as [|? ? Ht Hr']; subst.
      rewrite (IH " " t Ht Hr').
      cbn [map]. f_equal.
      unfold String.rev. change (String.rev_app t " ")
        with (String.rev_app (String " " t) "").
      rewrite rev_app_rev_app. cbn [String.rev_app].
      by rewrite app_empty_r. }
  inversion Hall as [|? ? Hf Hr]; subst.
  rewrite Hgen by done. f_equal. apply rev_rev_app.
Qed.

(** A cell written as tokens joined by a comma and a space is read back
    as these tokens, when each token is non-empty, lower-case, free of
    commas and of surrounding whitespace. *)
Theorem list_cell_round_trip (tokens : list string) :
  Forall (fun t => t <> "" /\ lower t = t /\ strip t = t
                   /\ contains "," t = false) tokens ->
  split_strip_lower (PStr (join ", " tokens)) = tokens.
Proof.
  intros Hall. destruct tokens as [|first rest]; [reflexivity|].
  destruct (split_comma_join (first :: rest)) as (f & r & E & Hs).
  { eapply Forall_impl; [exact Hall|]. by intros t (_ & _ & _ & H). }
  { done. }
  injection E as <- <-.
  unfold split_strip_lower. cbn [py_str]. rewrite Hs.
  assert (Hfield : forall t pre,
            t <> "" /\ lower t = t /\ strip t = t /\ contains "," t = false ->
            pre = t \/ pre = String " " t ->
            truthy (strip pre) = true /\ lower (strip pre) = t).
  { intros t pre (Hne & Hl & Hst & _) [-> | ->];
      rewrite ?strip_space_cons, Hst, Hl; split; [|done| |done]; by destruct t. }
  inversion Hall as [|? ? Hf Hr]; subst.
  rewrite filter_cons. destruct (Hfield first first Hf) as [Ht Hlo]; [by left|].
  rewrite decide_True by done. cbn [map]. rewrite Hlo. f_equal.
  clear Hs Hall Hf Ht Hlo. induction Hr as [|t rest Ht Hr IH]; [done|].
  cbn [map]. rewrite filter_cons.
  destruct (Hfield t (String " " t) Ht) as [Htr Hlo]; [by right|].
  rewrite decide_True by done. cbn [map]. rewrite Hlo. by f_equal.
Qed.

(** ** The ranking engine, branch by branch *)

Lemma strip_empty_inv (s : string) : strip s <> "" -> s <> "".
Proof. intros H ->. by apply H. Qed.

Lemma valid_indices_from_0 (cands : list (Product * HCResult)) :
  valid_embedding_indices cands = valid_indices_from 0 cands.
Proof. reflexivity. Qed.

Lemma valid_indices_from_cons (k : nat) (c : Product * HCResult)
    (cs : list (Product * HCResult)) :
  valid_indices_from k (c :: cs)
  = (if decide (embedding (fst c) ≠ []) then [k] else [])
    ++ valid_indices_from (S k) cs.
Proof.
  unfold valid_indices_from. cbn [imap]. rewrite filter_cons. cbn [fst snd].
  assert (imap ((fun (i : nat) (c0 : Product * HCResult) => ((k + i)%nat, c0)) ∘ S) cs
          = imap (fun i c0 => ((S k + i)%nat, c0)) cs) as ->.
  { apply imap_ext. intros i x _. simpl. f_equal. lia. }
  rewrite Nat.add_0_r. by destruct (decide (embedding c.1 ≠ [])).
Qed.

Lemma scatter_no_scores (cands : list (Product * HCResult)) :
  scatter_similarities cands [] = replicate (length cands) 0%Q.
Proof.
  induction cands as [|c cs IH]; [done|]. simpl.
  destruct (embedding c.1); by rewrite IH.
Qed.

Lemma scatter_length (cands : list (Product * HCResult)) (sims : list Q) :
  length (scatter_similarities cands sims) = length cands.
Proof.
  revert sims. induction cands as [|c cs IH]; intros sims; [done|]. simpl.
  destruct (embedding c.1); [|destruct sims]; simpl; by rewrite IH.
Qed.

Lemma assign_similarities_scatter (cands : list (Product * HCResult))
    (vpre : list nat) (colpre sims : list Q) :
  (length sims <= length (valid_indices_from (length colpre) cands))%nat ->
  assign_similarities (vpre ++ valid_indices_from (length colpre) cands) sims
    (length vpre) (colpre ++ replicate (length cands) 0%Q)
  = Returned (colpre ++ scatter_similarities cands sims).
Proof.
  revert vpre colpre sims.
  induction cands as [|c cs IH]; intros vpre colpre sims Hlen.
  - destruct sims; [done|]. simpl in Hlen. lia.
  - rewrite valid_indices_from_cons in *. cbn [length replicate scatter_similarities].
    destruct (decide (embedding c.1 ≠ [])) as [Hv|Hv].
    + destruct (embedding c.1) as [|e es] eqn:Ee; [done|].
      destruct sims as [|s ss].
      * cbn [assign_similarities]. by rewrite scatter_no_scores.
      * cbn [assign_similarities].
        assert ((vpre ++ [length colpre] ++ valid_indices_from (S (length colpre)) cs)
                  !! length vpre = Some (length colpre)) as ->.
        { rewrite lookup_app_r by lia. by rewrite Nat.sub_diag. }
        assert (<[length colpre := s]> (colpre ++ 0%Q :: replicate (length cs) 0%Q)
                = (colpre ++ [s]) ++ replicate (length cs) 0%Q) as ->.
        { rewrite <- (Nat.add_0_r (length colpre)) at 1.
          rewrite insert_app_r. by rewrite <- app_assoc. }
        specialize (IH (vpre ++ [length colpre]) (colpre ++ [s]) ss).
        rewrite !length_app in IH. cbn [length] in IH.
        rewrite !Nat.add_1_r in IH. rewrite <- (app_assoc vpre) in IH.
        rewrite IH; [by rewrite <- app_assoc|]. simpl in Hlen. lia.
    + assert (embedding c.1 = []) as Ee.
      { destruct (embedding c.1); [done|]. by exfalso; apply Hv. }
      rewrite Ee. cbn [app] in *.
      specialize (IH vpre (colpre ++ [0%Q]) sims).
      rewrite !length_app in IH. cbn [length] in IH.
      rewrite !Nat.add_1_r in IH. rewrite <- !app_assoc in IH.
      cbn [app] in IH. by apply IH.
Qed.

Lemma assign_similarities_length (valid : list nat) (sims : list Q) (i : nat)
    (column column' : list Q) :
  assign_similarities valid sims i column = Returned column' ->
  length column' = length column.
Proof.
  revert i column. induction sims as [|s sims IH]; intros i column; simpl.
  - by intros [= ->].
  - destruct (valid !! i); [|done]. intros H%IH. by rewrite H, length_insert.
Qed.

Lemma overall_pass_no_false (set_iter : list string -> list string)
    (repr_list : list string -> string) (p : Product) (req : Requirements) :
  overall_pass (check_constraints set_iter repr_list p req) = true ->
  forall k, constraints_passed_details (check_constraints set_iter repr_list p req)
              !! k <> Some (Some false).
Proof.
  destruct (check_constraints_outcome set_iter repr_list p req)
    as (m1 & m2 & m3 & m4 & ->).
  cbn [overall_pass constraints_passed_details]. intros H k Hk.
  apply details_lookup in Hk.
  destruct (power_outcome p req) as [[]|]; try done;
  (destruct (conn_outcome set_iter p req) as [[]|]; try done);
  (destruct (env_outcome p req) as [[]|]; try done);
  (destruct (freq_outcome p req) as [[]|]; try done);
  destruct Hk as [E|[E|[E|E]]]; congruence.
Qed.

Lemma scatter_without_embedding (cands : list (Product * HCResult)) (sims : list Q)
    (j : nat) (c : Product * HCResult) :
  cands !! j = Some c -> embedding (fst c) = [] ->
  scatter_similarities cands sims !! j = Some 0%Q.
Proof.
  revert sims j. induction cands as [|c0 cs IH]; intros sims j Hj He; [done|].
  destruct j as [|j]; simpl in Hj.
  - injection Hj as ->. simpl. by rewrite He.
  - simpl. destruct (embedding c0.1); [|destruct sims]; simpl; by eapply IH.
Qed.

Lemma scatter_with_embedding (cands : list (Product * HCResult)) (sims : list Q) :
  length sims
    = length (filter (fun emb : list Q => emb ≠ []) (map (fun c => embedding (fst c)) cands)) ->
  map snd (filter (fun cs : Product * HCResult * Q => embedding (fst (fst cs)) ≠ [])
             (zip cands (scatter_similarities cands sims)))
  = sims.
Proof.
  revert sims. induction cands as [|c cs IH]; intros sims Hlen.
  - by destruct sims.
  - cbn [map] in Hlen. rewrite filter_cons in Hlen.
    cbn [scatter_similarities].
    destruct (embedding c.1) as [|e es] eqn:Ee.
    + rewrite decide_False in Hlen by (intros H; by apply H).
      cbn [zip zip_with]. rewrite filter_cons. cbn [fst snd]. rewrite Ee.
      rewrite decide_False by (intros H; by apply H). by apply IH.
    + rewrite decide_True in Hlen by done. destruct sims as [|s ss]; [done|].
      cbn [zip zip_with]. rewrite filter_cons. cbn [fst snd]. rewrite Ee.
      rewrite decide_True by done. cbn [map snd]. f_equal. apply IH.
      simpl in Hlen. lia.
Qed.

Section RankingBranches.

Variable set_iter : list string -> list string.
Variable repr_list : list string -> string.
Variable float_mul float_add : Q -> Q -> Q.
Variable float_round : Q -> Z -> Q.
Variable format_2f : Q -> string.
Variable sm : SoftMatcher.

Local Abbreviation score_cands :=
  (score_candidates float_mul float_add float_round format_2f sm).
Local Abbreviation run :=
  (recommend_run set_iter repr_list float_mul float_add float_round format_2f sm).
Local Abbreviation rec :=
  (recommend set_iter repr_list float_mul float_add float_round format_2f sm).
Local Abbreviation survivors := (hard_constraint_filter set_iter repr_list).
Local Abbreviation with_sim :=
  (with_similarity float_mul float_add float_round format_2f).

Lemma from_candidate_without (note : string) (cands : list (Product * HCResult)) :
  Forall2 from_candidate cands (map (without_similarity note) cands).
Proof. induction cands as [|[row hc] cs IH]; constructor; [by repeat split|done]. Qed.

Lemma from_candidate_with (cands : list (Product * HCResult)) (column : list Q) :
  length column = length cands ->
  Forall2 from_candidate cands (zip_with with_sim cands column).
Proof.
  revert column. induction cands as [|[row hc] cs IH]; intros [|x column] H;
    simpl in *; try done; constructor; [by repeat split|]. apply IH. lia.
Qed.

Lemma score_candidates_shape (cands : list (Product * HCResult)) (req : Requirements)
    (data : list RecData) (trace : list Event) :
  score_cands cands req = (Returned data, trace) ->
  Forall2 from_candidate cands data.
Proof.
  unfold score_candidates.
  destruct (negb (truthy (strip (build_requirement_query req)))
            || negb (model_loaded sm)).
  { intros [= <- _]. apply from_candidate_without. }
  destruct (get_embeddings sm [build_requirement_query req]) as [[|q embs]|].
  1, 3: intros [= <- _]; apply from_candidate_without.
  destruct (filter (fun emb : list Q => emb ≠ []) _) as [|e pe];
    cbv beta iota zeta;
    match goal with |- context [assign_similarities ?v ?s ?i ?c] =>
      destruct (assign_similarities v s i c) as [column|exn] eqn:Ea end;
    try done;
    apply assign_similarities_length in Ea; rewrite length_replicate in Ea;
    intros [= <- _]; by apply from_candidate_with.
Qed.

End RankingBranches.

Lemma Forall2_exists_l {A B} (R : A -> B -> Prop) (l : list A) (k : list B) :
  Forall2 R l k -> Forall (fun y => exists x, x ∈ l /\ R x y) k.
Proof.
  induction 1 as [|x y l k HR _ IH]; constructor.
  - exists x. split; [left|done].
  - eapply Forall_impl; [exact IH|]. intros z (w & Hw & Hz). exists w.
    split; [by right|done].
Qed.

Section RankingProperties.

Variable set_iter : list string -> list string.
Variable repr_list : list string -> string.
Variable float_mul float_add : Q -> Q -> Q.
Variable float_round : Q -> Z -> Q.
Variable format_2f : Q -> string.
Variable sm : SoftMatcher.

Local Abbreviation score_cands :=
  (score_candidates float_mul float_add float_round format_2f sm).
Local Abbreviation run :=
  (recommend_run set_iter repr_list float_mul float_add float_round format_2f sm).
Local Abbreviation rec :=
  (recommend set_iter repr_list float_mul float_add float_round format_2f sm).
Local Abbreviation survivors := (hard_constraint_filter set_iter repr_list).
Local Abbreviation with_sim :=
  (with_similarity float_mul float_add float_round format_2f).

Lemma get_embeddings_query (q : string) :
  model_loaded sm = true -> strip q <> "" ->
  get_embeddings sm [q] = encode sm [q].
Proof.
  intros Hm Hq. unfold get_embeddings. rewrite Hm. simpl.
  apply strip_empty_inv in Hq. by destruct q.
Qed.

Lemma not_degraded (q : string) :
  model_loaded sm = true -> strip q <> "" ->
  negb (truthy (strip q)) || negb (model_loaded sm) = false.
Proof. intros -> Hq. by destruct (strip q). Qed.

(** When the model is loaded and the query is not empty but its embedding
    fails (the encoder raises or returns nothing), [recommend] still
    returns: the survivors ranked by rule score, each with similarity 0.0,
    a final score equal to its rule score and the note of the failure
    appended; the similarity engine is not called. *)
Theorem query_embedding_failure_ranking (products_df : list Product)
    (req : Requirements) (top_n : option Z) :
  survivors products_df req <> [] ->
  model_loaded sm = true ->
  strip (build_requirement_query req) <> "" ->
  encode sm [build_requirement_query req] = None
  \/ encode sm [build_requirement_query req] = Some [] ->
  exists out : list Recommendation,
    rec products_df req top_n = Returned out
    /\ out = map format_output
               (slice_to (default recommend_default_top_n top_n)
                  (sorted_desc final_score_key
                     (map (without_similarity embedding_failed_note)
                        (survivors products_df req))))
    /\ Forall (fun r =>
         Text_Similarity r = NFloat 0
         /\ exists c, c ∈ survivors products_df req
              /\ Final_Score r = NInt (score (snd c))
              /\ Explanation_Details r
                 = explanation (snd c) ++ [embedding_failed_note]) out
    /\ snd (run products_df req (default recommend_default_top_n top_n))
       = [EvBuildQuery; EvGetEmbeddings [build_requirement_query req]].
Proof.
  intros Hs Hm Hq He.
  assert (Hc : score_cands (survivors products_df req) req
               = (Returned (map (without_similarity embedding_failed_note)
                              (survivors products_df req)),
                  [EvBuildQuery; EvGetEmbeddings [build_requirement_query req]])).
  { unfold score_candidates. rewrite not_degraded, get_embeddings_query by done.
    by destruct He as [-> | ->]. }
  eexists. split; [|split; [reflexivity|split]].
  - unfold recommend. rewrite recommend_run_survivors by done. by rewrite Hc.
  - apply Forall_map.
    assert (Hall : Forall (fun d : RecData =>
              Text_Similarity (format_output d) = NFloat 0
              /\ exists c, c ∈ survivors products_df req
                   /\ Final_Score (format_output d) = NInt (score (snd c))
                   /\ Explanation_Details (format_output d)
                      = explanation (snd c) ++ [embedding_failed_note])
            (sorted_desc final_score_key
               (map (without_similarity embedding_failed_note)
                  (survivors products_df req)))).
    { rewrite sorted_desc_perm. apply Forall_map, Forall_forall.
      intros [row hc] Hin. split; [done|]. by exists (row, hc). }
    unfold slice_to. destruct (0 <=? _); by apply Forall_take.
  - rewrite recommend_run_survivors by done. by rewrite Hc.
Qed.

(** With the model loaded, a non-empty query and an embedding for it, the
    similarities are put back by position: the candidates whose cached
    embedding is not empty take the scores of the similarity engine in
    order, every other candidate keeps exactly 0.0, and the records are
    built from these, ranked and cut. The similarity engine is called once,
    and not at all when no candidate has an embedding. *)
Theorem similarity_path_ranking (products_df : list Product) (req : Requirements)
    (n : Z) (query_embedding : list Q) (more : list (list Q)) :
  survivors products_df req <> [] ->
  model_loaded sm = true ->
  strip (build_requirement_query req) <> "" ->
  encode sm [build_requirement_query req] = Some (query_embedding :: more) ->
  cos_sim_bounded sm ->
  let cands := survivors products_df req in
  let embs := filter (fun emb : list Q => emb ≠ [])
                (map (fun c => embedding (fst c)) cands) in
  let sims := calculate_similarity sm query_embedding embs in
  run products_df req n
  = (Returned (map format_output
                 (slice_to n
                    (sorted_desc final_score_key
                       (zip_with with_sim cands (scatter_similarities cands sims))))),
     [EvBuildQuery; EvGetEmbeddings [build_requirement_query req]]
     ++ match embs with
        | [] => []
        | _ => [EvCalculateSimilarity (length embs)]
        end)
  /\ length (scatter_similarities cands sims) = length cands
  /\ (forall j c, cands !! j = Some c -> embedding (fst c) = [] ->
        scatter_similarities cands sims !! j = Some 0%Q)
  /\ (length sims = length embs ->
      map snd (filter (fun cs : Product * HCResult * Q =>
                         embedding (fst (fst cs)) ≠ [])
                 (zip cands (scatter_similarities cands sims)))
      = sims).
Proof.
  intros Hs Hm Hq He Hsim cands embs sims.
  assert (Hlen : (length sims <= length (valid_indices_from 0 cands))%nat).
  { rewrite <- valid_indices_from_0, valid_indices_length. fold embs.
    subst sims. unfold calculate_similarity.
    destruct embs as [|e es] eqn:Ee; [simpl; lia|].
    destruct (cos_sim sm query_embedding (e :: es)) as [l|] eqn:Ec; simpl.
    - by apply Hsim in Ec.
    - lia. }
  split_and!.
  - rewrite recommend_run_survivors by done. fold cands.
    unfold score_candidates. rewrite not_degraded, get_embeddings_query, He by done.
    fold embs.
    pose proof (assign_similarities_scatter cands [] [] sims Hlen) as Ha.
    cbn [app length] in Ha. rewrite <- valid_indices_from_0 in Ha.
    destruct embs as [|e es] eqn:Ee.
    + subst sims. cbv beta iota zeta. cbn [calculate_similarity] in Ha.
      by rewrite Ha.
    + subst sims. cbv beta iota zeta. by rewrite Ha.
  - apply scatter_length.
  - intros j c. apply scatter_without_embedding.
  - apply scatter_with_embedding.
Qed.

Lemma recommend_returned_shape (products_df : list Product)
    (req : Requirements) (top_n : option Z) (out : list Recommendation) :
  rec products_df req top_n = Returned out ->
  exists data : list RecData,
    Forall2 from_candidate (survivors products_df req) data
    /\ out = map format_output
               (slice_to (default recommend_default_top_n top_n)
                  (sorted_desc final_score_key data)).
Proof.
  unfold recommend. intros Hr.
  destruct (survivors products_df req) as [|c0 cs] eqn:Hs.
  { rewrite recommend_run_no_survivor in Hr by done. injection Hr as <-.
    exists []. split; [constructor|]. cbn [sorted_desc foldr].
    by rewrite slice_to_nil. }
  rewrite recommend_run_survivors in Hr by (rewrite Hs; done).
  destruct (score_cands (survivors products_df req) req) as [[data|e] trace] eqn:Hc;
    [|done].
  cbn [fst] in Hr. injection Hr as <-.
  apply score_candidates_shape in Hc. rewrite Hs in Hc. by exists data.
Qed.

Lemma recommend_returns (products_df : list Product) (req : Requirements)
    (top_n : option Z) :
  cos_sim_bounded sm -> exists out, rec products_df req top_n = Returned out.
Proof.
  intros Hsim. unfold recommend.
  destruct (survivors products_df req) as [|c0 cs] eqn:Hs.
  { rewrite recommend_run_no_survivor by done. by exists []. }
  rewrite recommend_run_survivors by (rewrite Hs; done).
  destruct (score_candidates_returns float_mul float_add float_round format_2f sm
              (survivors products_df req) req Hsim) as (data & trace & Hc & _).
  rewrite Hc. by eexists.
Qed.

Lemma slice_to_shorter {A} (n : Z) (l : list A) :
  (length (slice_to n l) <= length l)%nat.
Proof. unfold slice_to. destruct (0 <=? n); rewrite length_take; lia. Qed.

Lemma survivors_pass (products_df : list Product) (req : Requirements)
    (c : Product * HCResult) :
  c ∈ survivors products_df req ->
  fst c ∈ products_df
  /\ snd c = check_constraints set_iter repr_list (fst c) req
  /\ overall_pass (snd c) = true.
Proof.
  unfold hard_constraint_filter. intros [Hpass Hin]%list_elem_of_filter.
  change (map (fun p => (p, check_constraints set_iter repr_list p req)))
    with (fmap (M := list) (fun p => (p, check_constraints set_iter repr_list p req)))
    in Hin.
  apply list_elem_of_fmap in Hin as (p & -> & Hp). by split_and!.
Qed.

Lemma survivors_length (products_df : list Product) (req : Requirements) :
  (length (survivors products_df req) <= length products_df)%nat.
Proof.
  unfold hard_constraint_filter. etrans; [apply length_filter|].
  by rewrite length_map.
Qed.

(** Whatever [recommend] returns holds only products of the catalog that
    pass the filter: no details value of a returned record is false, the
    record carries the identifier, the name and the details of a passing
    catalog product, and the list is no longer than the catalog, nor than
    a non-negative [top_n]. *)
Theorem recommend_returns_only_passing (products_df : list Product)
    (req : Requirements) (top_n : option Z) (out : list Recommendation) :
  rec products_df req top_n = Returned out ->
  Forall (fun r =>
    (forall k, Hard_Constraints_Passed_Details r !! k <> Some (Some false))
    /\ exists p, p ∈ products_df
         /\ overall_pass (check_constraints set_iter repr_list p req) = true
         /\ out_Product_ID r = Product_ID p
         /\ out_Product_Name r = Product_Name p
         /\ Hard_Constraints_Passed_Details r
            = constraints_passed_details (check_constraints set_iter repr_list p req))
    out
  /\ (length out <= length products_df)%nat
  /\ (0 <= default recommend_default_top_n top_n ->
      (length out <= Z.to_nat (default recommend_default_top_n top_n))%nat).
Proof.
  intros (data & Hshape & ->)%recommend_returned_shape.
  pose proof (Forall2_length _ _ _ Hshape) as Hlen.
  pose proof (survivors_length products_df req) as Hsurv.
  split_and!.
  - apply Forall_map.
    assert (Hsorted : Forall (fun d : RecData =>
              (forall k, Hard_Constraints_Passed_Details (format_output d) !! k
                         <> Some (Some false))
              /\ exists p, p ∈ products_df
                   /\ overall_pass (check_constraints set_iter repr_list p req) = true
                   /\ out_Product_ID (format_output d) = Product_ID p
                   /\ out_Product_Name (format_output d) = Product_Name p
                   /\ Hard_Constraints_Passed_Details (format_output d)
                      = constraints_passed_details
                          (check_constraints set_iter repr_list p req))
              (sorted_desc final_score_key data)).
    { rewrite sorted_desc_perm. apply Forall2_exists_l in Hshape.
      eapply Forall_impl; [exact Hshape|].
      intros d (c & Hin & Hid & Hname & _ & Hdet).
      apply survivors_pass in Hin as (Hp & Hc & Hpass). rewrite Hc in Hpass, Hdet.
      split.
      - cbn [format_output Hard_Constraints_Passed_Details]. rewrite Hdet.
        by apply overall_pass_no_false.
      - exists (fst c). by split_and!. }
    unfold slice_to. destruct (0 <=? _); by apply Forall_take.
  - rewrite length_map. etrans; [apply slice_to_shorter|].
    rewrite sorted_desc_length. lia.
  - intros Hn. rewrite length_map, slice_to_length by done. lia.
Qed.


(** Every call of [recommend] uses the soft matcher in one order and each
    operation at most once: the query is built, then embedded alone, then
    compared with the embeddings of the survivors that have one. Without
    a model nothing is embedded or compared. *)
Theorem soft_matcher_calls (products_df : list Product) (req : Requirements) (n : Z) :
  snd (run products_df req n)
    `prefix_of` [EvBuildQuery;
                 EvGetEmbeddings [build_requirement_query req];
                 EvCalculateSimilarity
                   (length (filter (fun emb : list Q => emb ≠ [])
                              (map (fun c => embedding (fst c))
                                 (survivors products_df req))))]
  /\ (model_loaded sm = false ->
      snd (run products_df req n) `prefix_of` [EvBuildQuery]).
Proof.
  destruct (survivors products_df req) as [|c0 cs] eqn:Hs.
  { rewrite recommend_run_no_survivor by done. split; intros; apply prefix_nil. }
  rewrite recommend_run_survivors by (rewrite Hs; done). rewrite Hs.
  unfold score_candidates.
  destruct (negb (truthy (strip (build_requirement_query req)))
            || negb (model_loaded sm)) eqn:Hd.
  { cbn [snd]. split; intros; eexists; reflexivity. }
  assert (Hm : model_loaded sm = true).
  { apply orb_false_iff in Hd as [_ Hm]. by destruct (model_loaded sm). }
  split; [|intros Hf; congruence].
  destruct (get_embeddings sm [build_requirement_query req]) as [[|q embs]|].
  1, 3: cbn [snd]; eexists; reflexivity.
  destruct (filter (fun emb : list Q => emb ≠ []) _) as [|e pe];
    cbv beta iota zeta;
    match goal with |- context [assign_similarities ?v ?s ?i ?c] =>
      destruct (assign_similarities v s i c) end; cbn [snd app];
    eexists; reflexivity.
Qed.

End RankingProperties.

(** ** The order of a set and the ranking *)

Lemma insert_desc_same_core (d1 d2 : RecData) (l1 l2 : list RecData) :
  same_core_data d1 d2 -> Forall2 same_core_data l1 l2 ->
  Forall2 same_core_data (insert_desc final_score_key d1 l1)
    (insert_desc final_score_key d2 l2).
Proof.
  intros Hd. induction 1 as [|x y l k Hxy Hl IH]; simpl.
  - constructor; [exact Hd | constructor].
  - assert (final_score_key x = final_score_key y) as ->.
    { unfold final_score_key. destruct Hxy as (_ & _ & _ & _ & _ & ->). done. }
    assert (final_score_key d1 = final_score_key d2) as ->.
    { unfold final_score_key. destruct Hd as (_ & _ & _ & _ & _ & ->). done. }
    destruct (Qle_bool _ _).
    + constructor; [exact Hd|]. constructor; [exact Hxy | exact Hl].
    + constructor; [exact Hxy | exact IH].
Qed.

Lemma sorted_desc_same_core (l1 l2 : list RecData) :
  Forall2 same_core_data l1 l2 ->
  Forall2 same_core_data (sorted_desc final_score_key l1)
    (sorted_desc final_score_key l2).
Proof.
  induction 1 as [|x y l k Hxy Hl IH]; simpl; [constructor|].
  by apply insert_desc_same_core.
Qed.

Lemma slice_to_same_core (n : Z) (l1 l2 : list RecData) :
  Forall2 same_core_data l1 l2 ->
  Forall2 same_core_data (slice_to n l1) (slice_to n l2).
Proof.
  intros H. unfold slice_to. rewrite (Forall2_length _ _ _ H).
  destruct (0 <=? n); by apply Forall2_take.
Qed.

Lemma record_core_same (l1 l2 : list RecData) :
  Forall2 same_core_data l1 l2 ->
  map record_core (map format_output l1) = map record_core (map format_output l2).
Proof.
  induction 1 as [|x y l k Hxy Hl IH]; simpl; [done|]. f_equal; [|done].
  destruct Hxy as (H1 & H2 & H3 & H4 & H5 & H6).
  unfold record_core, format_output; simpl. congruence.
Qed.

Lemma valid_indices_from_same (k : nat) (cs1 cs2 : list (Product * HCResult)) :
  Forall2 same_core_cand cs1 cs2 ->
  valid_indices_from k cs1 = valid_indices_from k cs2.
Proof.
  intros H. revert k. induction H as [|c1 c2 l1 l2 (Hc & _) Hl IH]; intros k; [done|].
  rewrite !valid_indices_from_cons, Hc, IH. done.
Qed.

Lemma embeddings_same (cs1 cs2 : list (Product * HCResult)) :
  Forall2 same_core_cand cs1 cs2 ->
  map (fun c => embedding (fst c)) cs1 = map (fun c => embedding (fst c)) cs2.
Proof.
  induction 1 as [|c1 c2 l1 l2 (Hc & _) Hl IH]; simpl; [done|]. by rewrite Hc, IH.
Qed.

Section RankingOrder.

Variable repr_list : list string -> string.
Variable float_mul float_add : Q -> Q -> Q.
Variable float_round : Q -> Z -> Q.
Variable format_2f : Q -> string.
Variable sm : SoftMatcher.

Local Abbreviation score_cands :=
  (score_candidates float_mul float_add float_round format_2f sm).
Local Abbreviation with_sim :=
  (with_similarity float_mul float_add float_round format_2f).

Lemma survivors_same_core (so1 so2 : SetOrder) (products_df : list Product)
    (req : Requirements) :
  Forall2 same_core_cand (hard_constraint_filter so1 repr_list products_df req)
    (hard_constraint_filter so2 repr_list products_df req).
Proof.
  unfold hard_constraint_filter.
  induction products_df as [|p ps IH]; [constructor|].
  cbn [map]. rewrite !filter_cons. cbn [snd].
  destruct (check_constraints_set_order so1 so2 repr_list p req) as (Hp & Hsc & Hd).
  rewrite <- Hp.
  destruct (decide (overall_pass (check_constraints so1 repr_list p req) = true));
    [|done].
  constructor; [|done]. by repeat split.
Qed.

Lemma without_similarity_same (note : string) (cs1 cs2 : list (Product * HCResult)) :
  Forall2 same_core_cand cs1 cs2 ->
  Forall2 same_core_data (map (without_similarity note) cs1)
    (map (without_similarity note) cs2).
Proof.
  induction 1 as [|[r1 h1] [r2 h2] l1 l2 (Hc & Hs & Hd) Hl IH]; simpl;
    constructor; [|done].
  simpl in *. subst r2. unfold same_core_data; simpl. rewrite Hs, Hd. done.
Qed.

Lemma with_similarity_same (cs1 cs2 : list (Product * HCResult)) (column : list Q) :
  Forall2 same_core_cand cs1 cs2 ->
  Forall2 same_core_data (zip_with with_sim cs1 column) (zip_with with_sim cs2 column).
Proof.
  intros H. revert column.
  induction H as [|[r1 h1] [r2 h2] l1 l2 (Hc & Hs & Hd) Hl IH]; intros column;
    [constructor|].
  destruct column as [|x column]; [constructor|]. simpl. constructor; [|apply IH].
  simpl in *. subst r2. unfold same_core_data; simpl. rewrite Hs, Hd. done.
Qed.

Lemma score_candidates_same_core (cs1 cs2 : list (Product * HCResult))
    (req : Requirements) :
  Forall2 same_core_cand cs1 cs2 ->
  snd (score_cands cs1 req) = snd (score_cands cs2 req)
  /\ match fst (score_cands cs1 req), fst (score_cands cs2 req) with
     | Returned d1, Returned d2 => Forall2 same_core_data d1 d2
     | Raised e1, Raised e2 => e1 = e2
     | _, _ => False
     end.
Proof.
  intros H. unfold score_candidates.
  destruct (negb (truthy (strip (build_requirement_query req)))
            || negb (model_loaded sm)).
  { cbn [fst snd]. split; [done|]. by apply without_similarity_same. }
  destruct (get_embeddings sm [build_requirement_query req]) as [[|q embs]|].
  1, 3: cbn [fst snd]; (split; [done|]); by apply without_similarity_same.
  rewrite (valid_indices_from_0 cs1), (valid_indices_from_0 cs2).
  rewrite (valid_indices_from_same 0 cs1 cs2 H), (embeddings_same cs1 cs2 H).
  rewrite (Forall2_length _ _ _ H).
  destruct (filter (fun emb : list Q => emb ≠ []) _) as [|e pe];
    cbv beta iota zeta;
    match goal with |- context [assign_similarities ?v ?s ?i ?c] =>
      destruct (assign_similarities v s i c) end; cbn [fst snd];
    (split; [done|]); try done; by apply with_similarity_same.
Qed.

(** The ranking does not depend on the iteration order of the sets: under
    any two orders [recommend] returns the same products in the same
    order with the same details, similarities and final scores (or raises
    the same exception); only the text of the explanations can differ. *)
Theorem ranking_order_independent (so1 so2 : SetOrder)
    (products_df : list Product) (req : Requirements) (top_n : option Z) :
  outcome_core (recommend so1 repr_list float_mul float_add float_round format_2f
                  sm products_df req top_n)
  = outcome_core (recommend so2 repr_list float_mul float_add float_round format_2f
                    sm products_df req top_n).
Proof.
  unfold recommend.
  pose proof (survivors_same_core so1 so2 products_df req) as Hs.
  destruct (hard_constraint_filter so1 repr_list products_df req) as [|c1 l1] eqn:E1.
  { apply Forall2_nil_inv_l in Hs.
    rewrite !recommend_run_no_survivor; done. }
  destruct (hard_constraint_filter so2 repr_list products_df req) as [|c2 l2] eqn:E2.
  { by apply Forall2_nil_inv_r in Hs. }
  rewrite !recommend_run_survivors by congruence. rewrite E1, E2.
  destruct (score_candidates_same_core _ _ req Hs) as [Ht Hd].
  destruct (score_cands (c1 :: l1) req) as [[d1|e1] t1],
           (score_cands (c2 :: l2) req) as [[d2|e2] t2]; cbn [fst snd] in *;
    try done; [|by subst].
  cbn [outcome_core]. f_equal.
  apply record_core_same, slice_to_same_core, sorted_desc_same_core, Hd.
Qed.

End RankingOrder.

(** ** The precomputation *)

Lemma build_product_corpus_frame (row : option Product) (features_df : list Feature)
    (product_feature_map_df : list ProductFeature) :
  snd (build_product_corpus row features_df product_feature_map_df) = features_df
  \/ snd (build_product_corpus row features_df product_feature_map_df)
     = map feature_id_astype_str features_df.
Proof. bpc_cases row features_df product_feature_map_df; auto. Qed.

Lemma build_product_corpus_normalized (row : option Product)
    (features_df : list Feature) (product_feature_map_df : list ProductFeature) :
  is_normalized (fst (build_product_corpus row features_df product_feature_map_df)).
Proof.
  bpc_cases row features_df product_feature_map_df;
    try apply clean_join_normalized.
  apply is_normalized_empty.
Qed.

Lemma corpus_column_from (product_feature_map_df : list ProductFeature)
    (products_df : list Product) (texts : list string) (features_df : list Feature) :
  exists new_texts features_df',
    fold_left (corpus_column_step product_feature_map_df) products_df
      (texts, features_df) = (texts ++ new_texts, features_df')
    /\ length new_texts = length products_df
    /\ Forall is_normalized new_texts
    /\ (features_df' = features_df
        \/ features_df' = map feature_id_astype_str features_df).
Proof.
  revert texts features_df.
  induction products_df as [|row rows IH]; intros texts features_df.
  - exists [], features_df. rewrite app_nil_r. by split_and!; auto.
  - cbn [fold_left]. unfold corpus_column_step at 2.
    pose proof (build_product_corpus_frame (Some row) features_df
                  product_feature_map_df) as Hf.
    pose proof (build_product_corpus_normalized (Some row) features_df
                  product_feature_map_df) as Hn.
    destruct (build_product_corpus (Some row) features_df product_feature_map_df)
      as [text f1]. cbn [fst snd] in Hf, Hn.
    destruct (IH (texts ++ [text]) f1) as (ts & f2 & -> & Hlen & Hall & Hf2).
    exists (text :: ts), f2. rewrite <- app_assoc. split_and!; [done| | |].
    + simpl. by rewrite Hlen.
    + by constructor.
    + destruct Hf as [-> | ->]; [done|]. destruct Hf2 as [-> | ->]; [by right|].
      right. apply astype_str_map_idem.
Qed.

Lemma with_embedding_zip (products_df : list Product) (embeddings : list (list Q)) :
  length embeddings = length products_df ->
  length (zip_with with_embedding products_df embeddings) = length products_df
  /\ map embedding (zip_with with_embedding products_df embeddings) = embeddings
  /\ map (fun p => with_embedding p []) (zip_with with_embedding products_df embeddings)
     = map (fun p => with_embedding p []) products_df.
Proof.
  revert embeddings. induction products_df as [|p ps IH]; intros [|e es] H;
    simpl in *; try done.
  destruct (IH es) as (H1 & H2 & H3); [lia|]. by rewrite H1, H2, H3.
Qed.

(** The precomputation keeps the rows and their order and changes nothing
    of a row but its embedding; it computes one normalized corpus per row;
    the embeddings are either the ones the model returned for the corpora,
    position by position, or all empty, and they are all empty when the
    model is not available; of the features table only the identifier
    column can change, to the string form of its values. *)
Theorem precompute_product_data_spec (sm : SoftMatcher) (products_df : list Product)
    (features_df : list Feature) (product_feature_map_df : list ProductFeature) :
  let result :=
    precompute_product_data sm products_df features_df product_feature_map_df in
  let products_df' := fst (fst result) in
  let product_corpuses := snd (fst result) in
  let features_df' := snd result in
  length products_df' = length products_df
  /\ map (fun p => with_embedding p []) products_df'
     = map (fun p => with_embedding p []) products_df
  /\ length product_corpuses = length products_df
  /\ Forall is_normalized product_corpuses
  /\ (Forall (fun p => embedding p = []) products_df'
      \/ get_embeddings sm product_corpuses = Some (map embedding products_df'))
  /\ (model_loaded sm = false -> Forall (fun p => embedding p = []) products_df')
  /\ (features_df' = features_df
      \/ features_df' = map feature_id_astype_str features_df).
Proof.
  intros result products_df' product_corpuses features_df'.
  subst products_df' product_corpuses features_df' result.
  unfold precompute_product_data.
  destruct products_df as [|p ps] eqn:Ep.
  { cbn [fst snd]. split_and!; auto. } 
  rewrite <- Ep. unfold corpus_column.
  destruct (corpus_column_from product_feature_map_df products_df [] features_df)
    as (ts & f' & -> & Hlen & Hall & Hf). cbn [app].
  assert (Hempty : forall n, Forall (fun p0 => embedding p0 = [])
            (zip_with with_embedding products_df (replicate n ([] : list Q)))).
  { intros n. revert n. clear. induction products_df as [|q qs IH]; intros [|n];
      simpl; constructor; [done|apply IH]. }
  set (embeddings :=
         if forallb (fun text => negb (truthy text)) ts
         then replicate (length products_df) []
         else match get_embeddings sm ts with
              | Some embs =>
                  if (length embs =? length products_df)%nat then embs
                  else replicate (length products_df) []
              | None => replicate (length products_df) []
              end).
  assert (Hl : length embeddings = length products_df).
  { subst embeddings. destruct (forallb _ ts); [apply length_replicate|].
    destruct (get_embeddings sm ts) as [embs|]; [|apply length_replicate].
    destruct (length embs =? length products_df)%nat eqn:E;
      [by apply Nat.eqb_eq | apply length_replicate]. }
  destruct (with_embedding_zip products_df embeddings Hl) as (H1 & H2 & H3).
  cbn [fst snd].
  destruct products_df as [|p0 ps0]; [done|].
  split_and!; try done.
  - subst embeddings. destruct (forallb _ ts); [left; apply Hempty|].
    destruct (get_embeddings sm ts) as [embs|] eqn:Eg; [|left; apply Hempty].
    destruct (length embs =? length (p0 :: ps0))%nat; [|left; apply Hempty].
    right. by rewrite H2.
  - intros Hm. subst embeddings. destruct (forallb _ ts); [apply Hempty|].
    unfold get_embeddings. rewrite Hm. apply Hempty.
Qed.

(** ** A requirement without free text *)

Lemma build_requirement_query_blank (req : Requirements) :
  default "" (application req ≫= app_type) = "" ->
  default [] (application req ≫= subtypes) = [] ->
  default "" (application req ≫= otherSubtype) = "" ->
  default "" (additionalDetails req) = "" ->
  build_requirement_query req = "".
Proof.
  intros H1 H2 H3 H4. unfold build_requirement_query. rewrite H1, H2, H3, H4.
  apply lower_empty_string.
Qed.

Section BlankQuery.

Variable set_iter : list string -> list string.
Variable repr_list : list string -> string.
Variable float_mul float_add : Q -> Q -> Q.
Variable float_round : Q -> Z -> Q.
Variable format_2f : Q -> string.
Variable sm : SoftMatcher.

(** A requirement whose application type, subtypes, other subtype and
    additional details are all absent or empty has the empty query, and is
    then ranked by the rule score alone, also when the model is loaded:
    nothing is embedded. *)
Theorem blank_query_ranks_by_rule_score (products_df : list Product)
    (req : Requirements) (n : Z) :
  default "" (application req ≫= app_type) = "" ->
  default [] (application req ≫= subtypes) = [] ->
  default "" (application req ≫= otherSubtype) = "" ->
  default "" (additionalDetails req) = "" ->
  build_requirement_query req = ""
  /\ fst (recommend_run set_iter repr_list float_mul float_add float_round
            format_2f sm products_df req n)
     = Returned (map format_output
                   (slice_to n
                      (sorted_desc final_score_key
                         (map (without_similarity degraded_note)
                            (hard_constraint_filter set_iter repr_list
                               products_df req)))))
  /\ snd (recommend_run set_iter repr_list float_mul float_add float_round
            format_2f sm products_df req n) `prefix_of` [EvBuildQuery].
Proof.
  intros H1 H2 H3 H4.
  pose proof (build_requirement_query_blank req H1 H2 H3 H4) as Hq.
  split; [done|].
  destruct (hard_constraint_filter set_iter repr_list products_df req)
    as [|c cs] eqn:Hs.
  { rewrite recommend_run_no_survivor by done. cbn [fst snd map sorted_desc foldr].
    rewrite slice_to_nil. split; [done | apply prefix_nil]. }
  rewrite recommend_run_survivors by (rewrite Hs; done). rewrite Hs.
  unfold score_candidates. rewrite Hq. change (strip "") with "".
  cbn [truthy negb orb fst snd]. split; [done|]. by exists [].
Qed.

End BlankQuery.

(** ** The endpoint *)

Section ApiFacts.

Variable set_iter : list string -> list string.
Variable repr_list : list string -> string.
Variable float_mul float_add : Q -> Q -> Q.
Variable float_round : Q -> Z -> Q.
Variable format_2f : Q -> string.
Variable sm : SoftMatcher.
Variable recommend_other :
  list Product -> ClientRequirements -> outcome (list Recommendation).

Local Abbreviation api :=
  (get_recommendations_api set_iter repr_list float_mul float_add float_round
     format_2f sm recommend_other).
Local Abbreviation call :=
  (recommend_body set_iter repr_list float_mul float_add float_round
     format_2f sm recommend_other).

(** The endpoint answers 503 exactly when the health check says
    unhealthy, whatever the body is; when healthy it answers 400 to a body
    with no field, and otherwise 200 with what [recommend] returns for
    [top_n = 3], or 500 when [recommend] raises. For a body that follows
    the schema of the requirement document, [recommend] is the function
    of the ranking engine on that document. *)
Theorem endpoint_status (st : ApiState) (c : ClientRequirements) :
  (api st c = HttpError 503 <-> health_check st = false)
  /\ (health_check st = true -> requirements_dict_empty c = true ->
      api st c = HttpError 400)
  /\ (health_check st = true -> requirements_dict_empty c = false ->
      exists products_df,
        recommender_instance st = Some products_df
        /\ api st c
           = match call products_df c with
             | Returned recommendations => Http200 recommendations
             | Raised _ => HttpError 500
             end
        /\ (forall req, requirements_of c = Some req ->
              call products_df c
              = recommend set_iter repr_list float_mul float_add float_round
                  format_2f sm products_df req (Some 3))).
Proof.
  unfold get_recommendations_api, health_check.
  destruct (message_set (initialization_error_message st)).
  { split_and!; [done | done | done]. }
  destruct (recommender_instance st) as [products_df|].
  2: { split_and!; [done | done | done]. }
  split_and!.
  - split; [|done]. destruct (requirements_dict_empty c); [done|].
    by destruct (recommend_body _ _ _ _ _ _ _ _ _ _).
  - by intros _ ->.
  - intros _ ->. exists products_df. split_and!; [done | done |].
    intros req Hreq. unfold recommend_body. by rewrite Hreq.
Qed.

(** A healthy endpoint whose similarity engine returns at most one score
    per vector answers every body that has some field and follows the
    schema of the requirement document with 200 and at most three
    records, none of which has a failed constraint. *)
Theorem endpoint_returns_at_most_three (st : ApiState) (c : ClientRequirements)
    (req : Requirements) :
  health_check st = true ->
  requirements_dict_empty c = false ->
  requirements_of c = Some req ->
  cos_sim_bounded sm ->
  exists body,
    api st c = Http200 body
    /\ (length body <= 3)%nat
    /\ Forall (fun r => forall k,
                 Hard_Constraints_Passed_Details r !! k <> Some (Some false)) body.
Proof.
  intros Hh He Hreq Hsim. unfold get_recommendations_api, health_check in *.
  destruct (message_set (initialization_error_message st)); [done|].
  destruct (recommender_instance st) as [products_df|]; [|done].
  rewrite He. unfold recommend_body. rewrite Hreq.
  destruct (recommend_returns set_iter repr_list float_mul float_add float_round
              format_2f sm products_df req (Some 3) Hsim) as [out Hout].
  rewrite Hout. exists out. split; [done|].
  apply recommend_returned_shape in Hout as (data & Hshape & ->).
  cbn [default from_option id]. split.
  - rewrite length_map, slice_to_length by done. change (Z.to_nat 3) with 3%nat. lia.
  - apply Forall_map.
    assert (Hsorted : Forall (fun d : RecData => forall k,
              Hard_Constraints_Passed_Details (format_output d) !! k
              <> Some (Some false))
              (sorted_desc final_score_key data)).
    { rewrite sorted_desc_perm. apply Forall2_exists_l in Hshape.
      eapply Forall_impl; [exact Hshape|].
      intros d (cand & Hin & _ & _ & _ & Hdet).
      apply survivors_pass in Hin as (_ & Hc & Hpass). rewrite Hc in Hpass, Hdet.
      cbn [format_output Hard_Constraints_Passed_Details]. rewrite Hdet.
      by apply overall_pass_no_false. }
    unfold slice_to. destruct (0 <=? 3); by apply Forall_take.
Qed.

End ApiFacts.

(** ** Requests that no keyword serves *)

(** When every requested power label has no keyword in the table, as the
    label "Other / Not Specified" and every label the table does not
    hold, the power dimension fails for every product, so no product of
    any catalog survives the filter. *)
Theorem labels_without_keywords_fail (set_iter : list string -> list string)
    (repr_list : list string -> string) (req : Requirements) :
  req_power_options_labels req <> [] ->
  Forall (fun label => power_keywords_for_label label = [])
    (req_power_options_labels req) ->
  (forall p : Product,
     constraints_passed_details (check_constraints set_iter repr_list p req)
       !! "power" = Some (Some false)
     /\ overall_pass (check_constraints set_iter repr_list p req) = false)
  /\ (forall products_df : list Product,
        hard_constraint_filter set_iter repr_list products_df req = [])
  /\ power_keywords_for_label "Other / Not Specified" = []
  /\ (forall label, config.POWER_KEYWORD_MAPPING !! label = None ->
        power_keywords_for_label label = []).
Proof.
  intros Hne Hall.
  assert (Hp : forall p : Product,
            constraints_passed_details (check_constraints set_iter repr_list p req)
              !! "power" = Some (Some false)
            /\ overall_pass (check_constraints set_iter repr_list p req) = false).
  { intros p.
    assert (Ho : power_outcome p req = Some false).
    { unfold power_outcome.
      destruct (req_power_options_labels req) as [|l labels] eqn:E; [done|].
      f_equal. apply not_true_is_false.
      intros (label & Hin & Hm)%existsb_elem_of.
      rewrite Forall_forall in Hall. specialize (Hall label Hin).
      unfold label_matched in Hm. by rewrite Hall in Hm. }
    destruct (check_constraints_outcome set_iter repr_list p req)
      as (m1 & m2 & m3 & m4 & ->).
    cbn [constraints_passed_details overall_pass].
    by rewrite details_power, Ho. }
  split_and!; [exact Hp | | reflexivity |].
  - intros products_df. unfold hard_constraint_filter.
    induction products_df as [|p ps IH]; [done|].
    cbn [map]. rewrite filter_cons. cbn [snd].
    destruct (Hp p) as [_ Hf]. rewrite Hf.
    rewrite decide_False by done. exact IH.
  - intros label Hl. unfold power_keywords_for_label. by rewrite Hl.
Qed.

(** The same for connectivity: when every requested token has an empty
    keyword list in the table, as "lpwan_other" has, the connectivity
    dimension fails for every product. *)
Theorem tokens_without_keywords_fail (so : SetOrder)
    (repr_list : list string -> string) (req : Requirements) :
  flattened_conn_ids req <> [] ->
  Forall (fun t => keywords_to_check t = []) (flattened_conn_ids req) ->
  (forall p : Product,
     constraints_passed_details (check_constraints so repr_list p req)
       !! "connectivity" = Some (Some false)
     /\ overall_pass (check_constraints so repr_list p req) = false)
  /\ keywords_to_check "lpwan_other" = [].
Proof.
  intros Hne Hall. split; [|reflexivity]. intros p.
  assert (Hco : conn_outcome so p req = Some false).
  { unfold conn_outcome.
    destruct (user_connectivity_reqs_ids so req) as [|t ids] eqn:E.
    - destruct (flattened_conn_ids req) as [|x l] eqn:Ef; [done|].
      assert (x ∈ user_connectivity_reqs_ids so req) as Hx.
      { unfold user_connectivity_reqs_ids. rewrite Ef. apply iter_order_elem. left. }
      rewrite E in Hx. by apply elem_of_nil in Hx.
    - f_equal. apply not_true_is_false. intros (t' & Hin & H)%existsb_elem_of.
      rewrite <- E in Hin. unfold user_connectivity_reqs_ids in Hin.
      apply iter_order_elem in Hin.
      rewrite Forall_forall in Hall. specialize (Hall t' Hin).
      unfold conn_id_matched in H. by rewrite Hall in H. }
  destruct (check_constraints_outcome so repr_list p req)
    as (m1 & m2 & m3 & m4 & ->).
  cbn [constraints_passed_details overall_pass].
  rewrite details_connectivity, Hco. split; [done|].
  by destruct (power_outcome p req) as [[]|].
Qed.

End FurtherProperties.

(** ** The further properties at the sample data *)

Section FurtherAtSamples.
#[local] Existing Instance ascii_case.

Lemma labels_without_keywords_fail_witness :
  req_power_options_labels req_power_other <> []
  /\ Forall (fun label => power_keywords_for_label label = [])
       (req_power_options_labels req_power_other)
  /\ (forall p : Product,
        constraints_passed_details (check_constraints set_first repr_simple p req_power_other)
          !! "power" = Some (Some false)
        /\ overall_pass (check_constraints set_first repr_simple p req_power_other) = false)
  /\ (forall products_df : list Product,
        hard_constraint_filter set_first repr_simple products_df req_power_other = [])
  /\ power_keywords_for_label "Other / Not Specified" = []
  /\ (forall label, config.POWER_KEYWORD_MAPPING !! label = None ->
        power_keywords_for_label label = []).
Proof.
  assert (H : Forall (fun label => power_keywords_for_label label = [])
                (req_power_options_labels req_power_other)).
  { repeat constructor. }
  split; [discriminate|]. split; [exact H|].
  apply (labels_without_keywords_fail set_first repr_simple req_power_other);
    [discriminate | exact H].
Defined.

Lemma tokens_without_keywords_fail_witness :
  flattened_conn_ids req_lpwan_other <> []
  /\ Forall (fun t => keywords_to_check t = []) (flattened_conn_ids req_lpwan_other)
  /\ (forall p : Product,
        constraints_passed_details (check_constraints set_first repr_simple p req_lpwan_other)
          !! "connectivity" = Some (Some false)
        /\ overall_pass (check_constraints set_first repr_simple p req_lpwan_other) = false)
  /\ keywords_to_check "lpwan_other" = [].
Proof.
  assert (H : Forall (fun t => keywords_to_check t = [])
                (flattened_conn_ids req_lpwan_other)).
  { repeat constructor. }
  split; [discriminate|]. split; [exact H|].
  apply (tokens_without_keywords_fail set_first repr_simple req_lpwan_other);
    [discriminate | exact H].
Defined.

Lemma frequency_band_rule_witness :
  region req_full ≫= frequencyBand = Some "US915"
  /\ "US915" <> ""
  /\ (constraints_passed_details (check_constraints set_first repr_simple p_gateway req_full)
        !! "frequency_band" = Some (Some true)
      <-> lower "US915" ∈ Region_Support_List p_gateway)
  /\ (constraints_passed_details (check_constraints set_first repr_simple p_gateway req_full)
        !! "frequency_band" = Some (Some false)
      <-> lower "US915" ∉ Region_Support_List p_gateway)
  /\ (forall (raw : RawProduct) (emb : list Q) (row : Product),
        preprocess_row raw emb = Some row ->
        lower "US915" ∈ Region_Support_List row <->
        exists field,
          field ∈ split_comma (py_str (fillna_empty (raw_Region_Support raw)))
          /\ strip field <> "" /\ lower (strip field) = lower "US915").
Proof.
  split; [reflexivity|]. split; [discriminate|].
  apply (frequency_band_rule set_first repr_simple p_gateway req_full "US915");
    [reflexivity | discriminate].
Defined.

Lemma blank_connectivity_fails_witness :
  Connectivity_List p_bare = []
  /\ Connectivity_Lower_Text p_bare = ""
  /\ flattened_conn_ids req_ble_wifi <> []
  /\ constraints_passed_details (check_constraints set_first repr_simple p_bare req_ble_wifi)
       !! "connectivity" = Some (Some false)
  /\ overall_pass (check_constraints set_first repr_simple p_bare req_ble_wifi) = false
  /\ (forall (raw : RawProduct) (emb : list Q) (row : Product),
        raw_Connectivity raw = PNaN \/ raw_Connectivity raw = PStr "" ->
        preprocess_row raw emb = Some row ->
        Connectivity_List row = [] /\ Connectivity_Lower_Text row = "").
Proof.
  split; [reflexivity|]. split; [reflexivity|].
  split; [vm_compute; discriminate|].
  apply (blank_connectivity_fails set_first repr_simple p_bare req_ble_wifi);
    [reflexivity | reflexivity | vm_compute; discriminate].
Defined.

Lemma connectivity_line_sorted_witness :
  constraints_passed_details (check_constraints set_first repr_simple p_gateway req_full)
    !! "connectivity" = Some (Some true)
  /\ exists tokens : list string,
       explanation (check_constraints set_first repr_simple p_gateway req_full) !! 2%nat
         = Some ("Matched connectivity options: " +:+ join ", " tokens)
       /\ StronglySorted String.le tokens
       /\ NoDup tokens
       /\ (forall x, x ∈ tokens <->
             exists t, t ∈ flattened_conn_ids req_full
                       /\ conn_token_matches p_gateway t /\ x = upper t).
Proof.
  split; [vm_compute; reflexivity|].
  apply (connectivity_line_sorted set_first repr_simple p_gateway req_full).
  vm_compute; reflexivity.
Defined.

Lemma list_cell_round_trip_witness :
  Forall (fun t => t <> "" /\ lower t = t /\ strip t = t
                   /\ contains "," t = false) ["lorawan"; "wi-fi"; "lan port"]
  /\ split_strip_lower (PStr (join ", " ["lorawan"; "wi-fi"; "lan port"]))
     = ["lorawan"; "wi-fi"; "lan port"].
Proof.
  assert (H : Forall (fun t => t <> "" /\ lower t = t /\ strip t = t
                               /\ contains "," t = false)
                ["lorawan"; "wi-fi"; "lan port"]).
  { repeat constructor; discriminate. }
  split; [exact H|]. apply (list_cell_round_trip _ H).
Defined.

Lemma query_embedding_failure_ranking_witness :
  hard_constraint_filter set_first repr_simple catalog_six req_text <> []
  /\ model_loaded sm_encoder_fails = true
  /\ strip (build_requirement_query req_text) <> ""
  /\ (encode sm_encoder_fails [build_requirement_query req_text] = None
      \/ encode sm_encoder_fails [build_requirement_query req_text] = Some [])
  /\ exists out : list Recommendation,
       recommend_sample sm_encoder_fails catalog_six req_text (Some 3) = Returned out
       /\ out = map format_output
                  (slice_to 3
                     (sorted_desc final_score_key
                        (map (without_similarity embedding_failed_note)
                           (hard_constraint_filter set_first repr_simple
                              catalog_six req_text))))
       /\ Forall (fun r =>
            Text_Similarity r = NFloat 0
            /\ exists c, c ∈ hard_constraint_filter set_first repr_simple
                               catalog_six req_text
                 /\ Final_Score r = NInt (score (snd c))
                 /\ Explanation_Details r
                    = explanation (snd c) ++ [embedding_failed_note]) out
       /\ snd (recommend_run_sample sm_encoder_fails catalog_six req_text 3)
          = [EvBuildQuery; EvGetEmbeddings [build_requirement_query req_text]].
Proof.
  split; [vm_compute; discriminate|]. split; [reflexivity|].
  split; [vm_compute; discriminate|]. split; [left; reflexivity|].
  apply (query_embedding_failure_ranking set_first repr_simple Qmult Qplus
           (fun q _ => q) (fun _ => "") sm_encoder_fails catalog_six req_text (Some 3)).
  - vm_compute; discriminate.
  - reflexivity.
  - vm_compute; discriminate.
  - left; reflexivity.
Defined.

Lemma sm_sample_bounded : cos_sim_bounded sm_sample.
Proof. intros q embs sims [= <-]. by rewrite length_map. Qed.

Lemma similarity_path_ranking_witness :
  hard_constraint_filter set_first repr_simple catalog_embedded req_text <> []
  /\ model_loaded sm_sample = true
  /\ strip (build_requirement_query req_text) <> ""
  /\ encode sm_sample [build_requirement_query req_text] = Some ([1%Q] :: [])
  /\ cos_sim_bounded sm_sample
  /\ scatter_similarities
       (hard_constraint_filter set_first repr_simple catalog_embedded req_text)
       (calculate_similarity sm_sample [1%Q]
          (filter (fun emb : list Q => emb ≠ [])
             (map (fun c => embedding (fst c))
                (hard_constraint_filter set_first repr_simple catalog_embedded req_text))))
     = [(1 # 2)%Q; 0%Q; (1 # 4)%Q]
  /\ ids_of (fst (recommend_run_sample sm_sample catalog_embedded req_text 2))
     = [PStr "E1"; PStr "E3"].
Proof.
  split; [vm_compute; discriminate|]. split; [reflexivity|].
  split; [vm_compute; discriminate|]. split; [reflexivity|].
  split; [exact sm_sample_bounded|].
  split; [vm_compute; reflexivity|].
  pose proof (similarity_path_ranking set_first repr_simple Qmult Qplus
                (fun q _ => q) (fun _ => "") sm_sample catalog_embedded req_text 2
                [1%Q] []) as H.
  destruct H as (Hrun & _).
  - vm_compute; discriminate.
  - reflexivity.
  - vm_compute; discriminate.
  - reflexivity.
  - exact sm_sample_bounded.
  - unfold recommend_run_sample. rewrite Hrun. vm_compute. reflexivity.
Defined.

Lemma recommend_returns_only_passing_witness :
  recommend_sample sm_unavailable [p_gateway; p_bare] req_two_powers (Some 3)
    = Returned (returned_list
                  (recommend_sample sm_unavailable [p_gateway; p_bare]
                     req_two_powers (Some 3)))
  /\ length (returned_list
               (recommend_sample sm_unavailable [p_gateway; p_bare]
                  req_two_powers (Some 3))) = 1%nat
  /\ Forall (fun r =>
       (forall k, Hard_Constraints_Passed_Details r !! k <> Some (Some false))
       /\ exists p, p ∈ [p_gateway; p_bare]
            /\ overall_pass (check_constraints set_first repr_simple p req_two_powers) = true
            /\ out_Product_ID r = Product_ID p
            /\ out_Product_Name r = Product_Name p
            /\ Hard_Constraints_Passed_Details r
               = constraints_passed_details
                   (check_constraints set_first repr_simple p req_two_powers))
       (returned_list
          (recommend_sample sm_unavailable [p_gateway; p_bare] req_two_powers (Some 3))).
Proof.
  assert (H : recommend_sample sm_unavailable [p_gateway; p_bare] req_two_powers (Some 3)
              = Returned (returned_list
                            (recommend_sample sm_unavailable [p_gateway; p_bare]
                               req_two_powers (Some 3)))).
  { vm_compute. reflexivity. }
  split; [exact H|]. split; [vm_compute; reflexivity|].
  exact (proj1 (recommend_returns_only_passing set_first repr_simple Qmult Qplus
                  (fun q _ => q) (fun _ => "") sm_unavailable [p_gateway; p_bare]
                  req_two_powers (Some 3) _ H)).
Defined.


Lemma blank_query_ranks_by_rule_score_witness :
  default "" (application req_full ≫= app_type) = ""
  /\ default [] (application req_full ≫= subtypes) = []
  /\ default "" (application req_full ≫= otherSubtype) = ""
  /\ default "" (additionalDetails req_full) = ""
  /\ build_requirement_query req_full = ""
  /\ fst (recommend_run_sample sm_sample [p_gateway; p_bare] req_full 3)
     = Returned (map format_output
                   (slice_to 3
                      (sorted_desc final_score_key
                         (map (without_similarity degraded_note)
                            (hard_constraint_filter set_first repr_simple
                               [p_gateway; p_bare] req_full)))))
  /\ snd (recommend_run_sample sm_sample [p_gateway; p_bare] req_full 3)
       `prefix_of` [EvBuildQuery].
Proof.
  do 4 (split; [reflexivity|]).
  apply (blank_query_ranks_by_rule_score set_first repr_simple Qmult Qplus
           (fun q _ => q) (fun _ => "") sm_sample [p_gateway; p_bare] req_full 3);
    reflexivity.
Defined.

Lemma endpoint_returns_at_most_three_witness :
  health_check api_ready = true
  /\ requirements_dict_empty body_no_text = false
  /\ requirements_of body_no_text = Some req_none
  /\ cos_sim_bounded sm_sample
  /\ exists body,
       get_recommendations_api set_first repr_simple Qmult Qplus (fun q _ => q)
         (fun _ => "") sm_sample raises_attribute_error api_ready body_no_text
       = Http200 body
       /\ (length body <= 3)%nat
       /\ Forall (fun r => forall k,
                    Hard_Constraints_Passed_Details r !! k <> Some (Some false)) body.
Proof.
  split; [reflexivity|]. split; [reflexivity|]. split; [reflexivity|].
  split; [exact sm_sample_bounded|].
  apply (endpoint_returns_at_most_three set_first repr_simple Qmult Qplus
           (fun q _ => q) (fun _ => "") sm_sample raises_attribute_error
           api_ready body_no_text req_none);
    [reflexivity | reflexivity | reflexivity | exact sm_sample_bounded].
Defined.

(** A body that sets [region] to [null] is outside the schema; when
    [recommend] raises on it, as the first read of the hard matcher does,
    the endpoint answers 500. *)
Example null_section_answer :
  requirements_dict_empty body_null_region = false
  /\ requirements_of body_null_region = None
  /\ get_recommendations_api set_first repr_simple Qmult Qplus (fun q _ => q)
       (fun _ => "") sm_sample raises_attribute_error api_ready body_null_region
     = HttpError 500.
Proof. split_and!; reflexivity. Qed.

Lemma preprocessed_row_normal_witness :
  preprocess_row raw_gateway [] = Some p_gateway
  /\ (forall x, x ∈ Region_Support_List p_gateway \/ x ∈ Connectivity_List p_gateway ->
        x <> "" /\ lower x = x /\ strip x = x)
  /\ lower (Connectivity_Lower_Text p_gateway) = Connectivity_Lower_Text p_gateway
  /\ lower (Deployment_Environment_Lower p_gateway)
     = Deployment_Environment_Lower p_gateway
  /\ (exists s, Product_ID p_gateway = PStr s)
  /\ embedding p_gateway = [].
Proof.
  split; [reflexivity|].
  apply (preprocessed_row_normal raw_gateway [] p_gateway). reflexivity.
Defined.

(** The sample catalog with embeddings, ranked by the stand-in model. *)
Example similarity_ranking_example :
  ids_of (recommend_sample sm_sample catalog_embedded req_text (Some 3))
    = [PStr "E1"; PStr "E3"; PStr "E2"]
  /\ ids_of (recommend_sample sm_sample catalog_embedded req_text (Some (-1)))
    = [PStr "E1"; PStr "E3"].
Proof. split; vm_compute; reflexivity. Qed.

End FurtherAtSamples.
